(** * BrainGrid: the epoch scheduler, the parameter loader and the growth log

    A shallow embedding of [Simulator.cpp] (the epoch scheduler), of the
    driver ([main], [makeSimulationInfo], [load_simulation_parameters],
    [LoadSimParms], [parseCommandLine]) and of the declarations of
    [LIFModel.h] that the properties below are about.

    Console output ([DEBUG] blocks, [PERFORMANCE_METRICS] timers, the
    closing report on [cout]) and the release of objects are left out; what
    goes to [cerr] is kept.

    Conventions.
    - [uint64_t] values are integers in [0, 2^64); every operation that can
      leave the range is followed by [wrap64].
    - [int] values are integers; signed overflow is undefined in C++ and is
      not given a meaning here.
    - [BGFLOAT] (declared in Global.h, which is not among the sources) is
      [float] or [double].  Its values are kept as exact rationals [Q].
      The scheduler, the driver and the growth engine compute with them
      exactly; module [IEEE] gives the arithmetic of Simulator.cpp once
      more with quotient and product rounded as a binary format rounds
      them, for the statements that depend on the rounding.
    - Output streams are lists of tokens, most recent last. *)

From Stdlib Require Import ZArith QArith Qround Qminmax List String Bool Lia.
From Stdlib Require Import SpecFloat.
Import ListNotations.

Local Open Scope string_scope.
Local Open Scope list_scope.
Local Open Scope Z_scope.

(** ** Machine numbers *)

Definition UINT64_MOD : Z := 2 ^ 64.

Definition wrap64 (z : Z) : Z := z mod UINT64_MOD.

Definition BGFLOAT : Type := Q.

(** [static_cast<uint64_t>(x)]: the fractional part is discarded.  The cast
    is undefined in C++ when the truncated value is outside [0, 2^64); the
    model reduces it into the range. *)
Definition static_cast_uint64 (x : BGFLOAT) : Z :=
  wrap64 (Z.quot (Qnum x) (Zpos (Qden x))).

(** [(int) x] *)
Definition cast_int (x : BGFLOAT) : Z := Z.quot (Qnum x) (Zpos (Qden x)).

(** A rational is integral when it equals its own floor. *)
Definition integral (x : Q) : Prop := inject_Z (Qfloor x) == x.

(** ** SimulationInfo *)

Record SimulationInfo : Type := mkSimulationInfo
  { totalNeurons : Z;
    epochDuration : BGFLOAT;
    maxSteps : Z;
    maxFiringRate : Z;
    maxSynapsesPerNeuron : Z;
    width : Z;
    height : Z;
    deltaT : BGFLOAT;
    seed : Z }.

(** [makeSimulationInfo] of the driver. *)
Definition makeSimulationInfo (cols rows : Z)
    (growthEpochDuration maxGrowthSteps : BGFLOAT)
    (maxFiringRate' maxSynapsesPerNeuron' : Z) (new_deltaT : BGFLOAT)
    (seed' : Z) : SimulationInfo :=
  let max_neurons := cols * rows in
  {| totalNeurons := max_neurons;
     epochDuration := growthEpochDuration;
     maxSteps := cast_int maxGrowthSteps;
     maxFiringRate := maxFiringRate';
     maxSynapsesPerNeuron := maxSynapsesPerNeuron';
     width := cols;
     height := rows;
     deltaT := new_deltaT;
     seed := seed' |}.

(** ** Output streams *)

Inductive Token : Type :=
| TStr (s : string)
| TFloat (x : BGFLOAT)
| TInt (n : Z)
| TEndl.

Definition ostream : Type := list Token.

(** The double-quote character of the XML text written by [saveState]. *)
Definition dq : string := String (Ascii.ascii_of_nat 34) EmptyString.

(** The line break and tab that the driver writes before the text of an
    exception. *)
Definition nl_tab : string :=
  String (Ascii.ascii_of_nat 10) (String (Ascii.ascii_of_nat 9) EmptyString).

(** ** The network seen from the simulator

    [Simulator] holds a [Network*] and only ever calls the member functions
    below.  Network.cpp is not among the sources; the interface is what the
    calls in Simulator.cpp and in the driver fix.  The global
    [g_simulationStep] is visible to the callee: [advance] and
    [writeSimMemory] receive its value, and [readSimMemory], which restores
    a saved run, returns the value it leaves in it. *)

Class NetworkOps (Net Image : Type) : Type :=
  { setup : BGFLOAT -> Z -> Net -> Net;
    advance : Z -> Net -> Net;
    updateConnections : Z -> Net -> Net;
    finish : BGFLOAT -> Z -> Net -> Net;
    net_saveState : Net -> ostream;
    readSimMemory : Image -> Z -> Net -> Z * Net;
    writeSimMemory : Z -> Z -> Net -> Image }.

(** ** Simulator *)

Section Simulator.

Context {Net Image : Type} `{NetworkOps Net Image}.

(** The simulator object together with the global tick counter. *)
Record World : Type := mkWorld
  { g_simulationStep : Z;
    network : Net }.

Variable m_sim_info : SimulationInfo.

(** Ticks added to the counter by one call of [advanceUntilGrowth].  The
    quotient is the exact one; [IEEE.ticksPerEpoch] below rounds it into
    the format before the cast. *)
Definition ticksPerEpoch : Z :=
  static_cast_uint64 (epochDuration m_sim_info / deltaT m_sim_info)%Q.

(** The [while (g_simulationStep < endStep)] loop.  [fuel] bounds the
    number of iterations; [advance_loop_exit] shows that the bound used by
    [advanceUntilGrowth] is never what stops the loop. *)
Fixpoint advance_loop (fuel : nat) (endStep : Z) (w : World) : World :=
  match fuel with
  | O => w
  | S fuel' =>
      if g_simulationStep w <? endStep then
        advance_loop fuel' endStep
          {| g_simulationStep := wrap64 (g_simulationStep w + 1);
             network := advance (g_simulationStep w) (network w) |}
      else w
  end.

Definition advanceUntilGrowth (currentStep : Z) (w : World) : World :=
  let endStep := wrap64 (g_simulationStep w + ticksPerEpoch) in
  advance_loop (Z.to_nat (endStep - g_simulationStep w)) endStep w.

(** The body of the [for] loop of [simulate]. *)
Definition growthCycle (currentStep : Z) (w : World) : World :=
  let w1 := advanceUntilGrowth currentStep w in
  {| g_simulationStep := g_simulationStep w1;
     network := updateConnections currentStep (network w1) |}.

(** [for (int currentStep = 1; currentStep <= maxSteps; currentStep++)],
    entered with [currentStep] and at most [fuel] iterations to go. *)
Fixpoint simulate_loop (fuel : nat) (currentStep : Z) (w : World) : World :=
  match fuel with
  | O => w
  | S fuel' =>
      if currentStep <=? maxSteps m_sim_info then
        simulate_loop fuel' (currentStep + 1) (growthCycle currentStep w)
      else w
  end.

Definition simulate_setup (w : World) : World :=
  {| g_simulationStep := g_simulationStep w;
     network := setup (epochDuration m_sim_info) (maxSteps m_sim_info)
                  (network w) |}.

(** The world at the head of the [for] loop after [n] growth cycles. *)
Definition after_epochs (n : nat) (w : World) : World :=
  simulate_loop n 1 (simulate_setup w).

Definition simulate (w : World) : World :=
  let w1 := after_epochs (Z.to_nat (maxSteps m_sim_info)) w in
  {| g_simulationStep := g_simulationStep w1;
     network := finish (epochDuration m_sim_info) (maxSteps m_sim_info)
                  (network w1) |}.

(** The value written under [simulationEndTime], as an exact product;
    [IEEE.simulationEndTime] below is the rounded one. *)
Definition simulationEndTime (w : World) : BGFLOAT :=
  (inject_Z (g_simulationStep w) * deltaT m_sim_info)%Q.

Definition matrix_open (name : string) : string :=
  ("   <Matrix name=" ++ dq ++ name ++ dq ++ " type=" ++ dq ++ "complete" ++ dq
   ++ " rows=" ++ dq ++ "1" ++ dq ++ " columns=" ++ dq ++ "1" ++ dq
   ++ " multiplier=" ++ dq ++ "1.0" ++ dq ++ ">")%string.

Definition saveState (w : World) : ostream :=
  [ TStr ("<?xml version=" ++ dq ++ "1.0" ++ dq ++ " standalone=" ++ dq
          ++ "no" ++ dq ++ "?>")%string; TEndl;
    TStr "<!-- State output file for the DCT growth modeling-->"; TEndl;
    TStr "<SimState>"; TEndl ]
  ++ net_saveState (network w)
  ++ [ TStr (matrix_open "Tsim"); TEndl;
       TStr "   "; TFloat (epochDuration m_sim_info); TEndl;
       TStr "</Matrix>"; TEndl;
       TStr (matrix_open "simulationEndTime"); TEndl;
       TStr "   "; TFloat (simulationEndTime w); TEndl;
       TStr "</Matrix>"; TEndl;
       TStr "</SimState>"; TEndl ].

Definition readMemory (memory_in : Image) (w : World) : World :=
  let r := readSimMemory memory_in (g_simulationStep w) (network w) in
  {| g_simulationStep := fst r; network := snd r |}.

Definition saveMemory (w : World) : Image :=
  writeSimMemory (maxSteps m_sim_info) (g_simulationStep w) (network w).

(** *** The scheduler as a state machine

    The control points of [simulate]: before [setup], at the head of the
    [for] loop, at the head of the [while] loop of [advanceUntilGrowth]
    (with its [endStep]), and after [finish]. *)
Inductive Sched : Type :=
| Idle (w : World)
| EpochHead (currentStep : Z) (w : World)
| TickHead (currentStep endStep : Z) (w : World)
| Finished (w : World).

Inductive sched_step : Sched -> Sched -> Prop :=
| step_setup w :
    sched_step (Idle w) (EpochHead 1 (simulate_setup w))
| step_enter k w :
    k <= maxSteps m_sim_info ->
    sched_step (EpochHead k w)
      (TickHead k (wrap64 (g_simulationStep w + ticksPerEpoch)) w)
| step_finish k w :
    maxSteps m_sim_info < k ->
    sched_step (EpochHead k w)
      (Finished {| g_simulationStep := g_simulationStep w;
                   network := finish (epochDuration m_sim_info)
                                (maxSteps m_sim_info) (network w) |})
| step_tick k e w :
    g_simulationStep w < e ->
    sched_step (TickHead k e w)
      (TickHead k e
         {| g_simulationStep := wrap64 (g_simulationStep w + 1);
            network := advance (g_simulationStep w) (network w) |})
| step_grow k e w :
    e <= g_simulationStep w ->
    sched_step (TickHead k e w)
      (EpochHead (k + 1)
         {| g_simulationStep := g_simulationStep w;
            network := updateConnections k (network w) |}).

(** Finite executions of the machine. *)
Inductive sched_steps : Sched -> Sched -> Prop :=
| steps_refl s : sched_steps s s
| steps_cons s1 s2 s3 :
    sched_step s1 s2 -> sched_steps s2 s3 -> sched_steps s1 s3.

End Simulator.

Arguments World : clear implicits.
Arguments mkWorld {Net}.
Arguments Sched : clear implicits.

(** ** The recording network

    The network that does nothing but remember, in order, the calls made on
    it.  Its memory image is the tick counter together with the log, and
    restoring an image restores both. *)

Inductive Event : Type :=
| ESetup (growthEpochDuration : BGFLOAT) (num_growth_steps : Z)
| EAdvance (tick : Z)
| EUpdateConnections (currentStep : Z)
| EFinish (growthEpochDuration : BGFLOAT) (num_growth_steps : Z).

Definition Trace : Type := list Event.

#[export] Instance TraceNetwork : NetworkOps Trace (Z * Trace) :=
  {| setup := fun d n tr => tr ++ [ESetup d n];
     advance := fun g tr => tr ++ [EAdvance g];
     updateConnections := fun k tr => tr ++ [EUpdateConnections k];
     finish := fun d n tr => tr ++ [EFinish d n];
     net_saveState := fun _ => [];
     readSimMemory := fun img _ _ => img;
     writeSimMemory := fun _ g tr => (g, tr) |}.

(** Replaying a log on an arbitrary network. *)
Definition replay_event {Net Image : Type} `{NetworkOps Net Image}
    (e : Event) (n : Net) : Net :=
  match e with
  | ESetup d k => setup d k n
  | EAdvance g => advance g n
  | EUpdateConnections k => updateConnections k n
  | EFinish d k => finish d k n
  end.

Definition replay {Net Image : Type} `{NetworkOps Net Image}
    (tr : Trace) (n : Net) : Net :=
  fold_left (fun n e => replay_event e n) tr n.

(** The calls of one epoch that starts at tick [g] and lasts [T] ticks. *)
Definition epoch_events (T : Z) (g : Z) (currentStep : Z) : Trace :=
  map (fun i => EAdvance (g + Z.of_nat i)) (seq 0 (Z.to_nat T))
  ++ [EUpdateConnections currentStep].

(** The calls of [n] consecutive epochs, the first one numbered [k] and
    starting at tick [g]. *)
Fixpoint epochs_events (T : Z) (n : nat) (k : Z) (g : Z) : Trace :=
  match n with
  | O => []
  | S n' => epoch_events T g k ++ epochs_events T n' (k + 1) (g + T)
  end.

(** The ticks of the [advance] calls of a log, and the epoch numbers of its
    growth updates. *)
Definition advance_ticks (tr : Trace) : list Z :=
  flat_map (fun e => match e with EAdvance g => [g] | _ => [] end) tr.

Definition update_steps (tr : Trace) : list Z :=
  flat_map (fun e => match e with EUpdateConnections k => [k] | _ => [] end) tr.

(** ** Stopping a run and resuming it

    The driver reads a memory image, when one is named on the command line,
    before [simulate], and writes one, when asked, after [simulate] has
    run all its epochs.  A run that is stopped after k epochs and resumed is
    therefore two runs of the program: one of k epochs that writes its
    image, and one that reads the image into its own new world and runs the
    remaining epochs. *)


Section Checkpoint.

Context {Net Image : Type} `{NetworkOps Net Image}.
Variable si : SimulationInfo.




End Checkpoint.

(** ** The scheduler's arithmetic in a binary format

    The functions of Simulator.cpp that compute with [BGFLOAT], for
    [BGFLOAT] an IEEE 754 binary format of precision [prec] and exponent
    bound [emax] ([float]: 24 and 128; [double]: 53 and 1024) under the
    default rounding, to nearest with ties to even.  Quotient, product and
    the conversion of an integer are those of the standard library's
    [SpecFloat]; every expression is evaluated in the format itself.  The
    loops are the ones above, and the network still receives the values as
    rationals. *)

Module IEEE.

Section IEEE.

Variables prec emax : Z.

(** The rational that a finite number of the format stands for.  An
    infinity or a NaN stands for none; it is given 0. *)
Definition value (x : spec_float) : Q :=
  match x with
  | S754_finite s m (Zneg e) =>
      Qmake (if s then Zneg m else Zpos m) (2 ^ e)%positive
  | S754_finite s m e => inject_Z ((if s then Zneg m else Zpos m) * 2 ^ e)
  | _ => 0%Q
  end.

(** The conversion of an integer to [BGFLOAT]: the nearest number of the
    format. *)
Definition of_uint64 (n : Z) : spec_float := binary_normalize prec emax n 0 false.

(** The number of the format nearest to [n / d], for [n] and [d] that the
    format holds exactly: what reading a decimal numeral gives. *)
Definition nearest (n d : Z) : spec_float :=
  SFdiv prec emax (of_uint64 n) (of_uint64 d).

Record SimulationInfo : Type := mkSimulationInfo
  { totalNeurons : Z;
    epochDuration : spec_float;
    maxSteps : Z;
    maxFiringRate : Z;
    maxSynapsesPerNeuron : Z;
    width : Z;
    height : Z;
    deltaT : spec_float;
    seed : Z }.

Context {Net Image : Type} `{NetworkOps Net Image}.

Variable m_sim_info : SimulationInfo.

(** [static_cast<uint64_t>(m_sim_info.epochDuration / m_sim_info.deltaT)]:
    the quotient is rounded into the format, then its fractional part is
    discarded. *)
Definition ticksPerEpoch : Z :=
  static_cast_uint64
    (value (SFdiv prec emax (epochDuration m_sim_info) (deltaT m_sim_info))).

Definition advanceUntilGrowth (currentStep : Z) (w : World Net) : World Net :=
  let endStep := wrap64 (g_simulationStep w + ticksPerEpoch) in
  advance_loop (Z.to_nat (endStep - g_simulationStep w)) endStep w.

Definition growthCycle (currentStep : Z) (w : World Net) : World Net :=
  let w1 := advanceUntilGrowth currentStep w in
  {| g_simulationStep := g_simulationStep w1;
     network := updateConnections currentStep (network w1) |}.

Fixpoint simulate_loop (fuel : nat) (currentStep : Z) (w : World Net)
  : World Net :=
  match fuel with
  | O => w
  | S fuel' =>
      if currentStep <=? maxSteps m_sim_info then
        simulate_loop fuel' (currentStep + 1) (growthCycle currentStep w)
      else w
  end.

Definition simulate_setup (w : World Net) : World Net :=
  {| g_simulationStep := g_simulationStep w;
     network := setup (value (epochDuration m_sim_info)) (maxSteps m_sim_info)
                  (network w) |}.

Definition simulate (w : World Net) : World Net :=
  let w1 := simulate_loop (Z.to_nat (maxSteps m_sim_info)) 1
              (simulate_setup w) in
  {| g_simulationStep := g_simulationStep w1;
     network := finish (value (epochDuration m_sim_info)) (maxSteps m_sim_info)
                  (network w1) |}.

(** [g_simulationStep * m_sim_info.deltaT]: the counter is converted to
    [BGFLOAT], then the product is rounded into the format. *)
Definition simulationEndTime (w : World Net) : spec_float :=
  SFmul prec emax (of_uint64 (g_simulationStep w)) (deltaT m_sim_info).

Definition saveState (w : World Net) : ostream :=
  [ TStr ("<?xml version=" ++ dq ++ "1.0" ++ dq ++ " standalone=" ++ dq
          ++ "no" ++ dq ++ "?>")%string; TEndl;
    TStr "<!-- State output file for the DCT growth modeling-->"; TEndl;
    TStr "<SimState>"; TEndl ]
  ++ net_saveState (network w)
  ++ [ TStr (matrix_open "Tsim"); TEndl;
       TStr "   "; TFloat (value (epochDuration m_sim_info)); TEndl;
       TStr "</Matrix>"; TEndl;
       TStr (matrix_open "simulationEndTime"); TEndl;
       TStr "   "; TFloat (value (simulationEndTime w)); TEndl;
       TStr "</Matrix>"; TEndl;
       TStr "</SimState>"; TEndl ].

End IEEE.

End IEEE.

(** The configuration with the same values and exact arithmetic. *)
Definition exact_info (si : IEEE.SimulationInfo) : SimulationInfo :=
  {| totalNeurons := IEEE.totalNeurons si;
     epochDuration := IEEE.value (IEEE.epochDuration si);
     maxSteps := IEEE.maxSteps si;
     maxFiringRate := IEEE.maxFiringRate si;
     maxSynapsesPerNeuron := IEEE.maxSynapsesPerNeuron si;
     width := IEEE.width si;
     height := IEEE.height si;
     deltaT := IEEE.value (IEEE.deltaT si);
     seed := IEEE.seed si |}.

(** ** TinyXML, as far as the driver uses it *)

#[warnings="-register-all"]
Inductive TiXmlElement : Type :=
| XmlElement (value : string) (attributes : list (string * string))
    (children : list TiXmlElement).

Definition Value (e : TiXmlElement) : string :=
  match e with XmlElement v _ _ => v end.

Definition attributes (e : TiXmlElement) : list (string * string) :=
  match e with XmlElement _ a _ => a end.

Definition children (e : TiXmlElement) : list TiXmlElement :=
  match e with XmlElement _ _ c => c end.

(** The first child with the given value; later ones are never looked at. *)
Definition FirstChildElement (name : string) (cs : list TiXmlElement)
  : option TiXmlElement :=
  find (fun c => String.eqb (Value c) name) cs.

Definition Attribute (name : string) (e : TiXmlElement) : option string :=
  option_map snd (find (fun a => String.eqb (fst a) name) (attributes e)).

Inductive QueryResult (A : Type) : Type :=
| TIXML_SUCCESS (v : A)
| TIXML_NO_ATTRIBUTE
| TIXML_WRONG_TYPE.

Arguments TIXML_SUCCESS {A}.
Arguments TIXML_NO_ATTRIBUTE {A}.
Arguments TIXML_WRONG_TYPE {A}.

Definition succeeded {A : Type} (q : QueryResult A) : bool :=
  match q with TIXML_SUCCESS _ => true | _ => false end.

(** [Query*Attribute]: the attribute is looked up, then its text is
    converted by [scan]. *)
Definition QueryAttribute {A : Type} (scan : string -> option A)
    (name : string) (e : TiXmlElement) : QueryResult A :=
  match Attribute name e with
  | None => TIXML_NO_ATTRIBUTE
  | Some text =>
      match scan text with
      | Some v => TIXML_SUCCESS v
      | None => TIXML_WRONG_TYPE
      end
  end.

(** A call that returns or throws a [KII_exception]. *)
Inductive Outcome (A : Type) : Type :=
| Returned (a : A)
| Thrown (what : string).

Arguments Returned {A}.
Arguments Thrown {A}.

(** Writing one cell of an array. *)
Fixpoint store {A : Type} (i : nat) (v : A) (l : list A) : list A :=
  match l, i with
  | [], _ => []
  | _ :: t, O => v :: t
  | h :: t, S j => h :: store j v t
  end.

(** ** The driver *)

Module Driver.

Section Driver.

Context {Net Image : Type} `{NetworkOps Net Image}.

(** The model object ([LIFSingleThreadedModel], not among the sources) and
    the member function the driver calls on it.  [readParameters] returns
    a [bool] or throws. *)
Variable Model : Type.
Variable new_LIFSingleThreadedModel : Model.
Variable readParameters : TiXmlElement -> Model -> Outcome bool * Model.

(** [Network network(model, si)] *)
Variable new_Network : Model -> SimulationInfo -> Net.

(** [DEFAULT_dt] of Global.h. *)
Variable DEFAULT_dt : BGFLOAT.

(** The text conversions underneath TinyXML's [QueryIntAttribute],
    [QueryFLOATAttribute] and [QueryValueAttribute] (at [long] and at
    [string]). *)
Variable scan_int : string -> option Z.
Variable scan_FLOAT : string -> option BGFLOAT.
Variable scan_long : string -> option Z.
Variable scan_string : string -> option string.

(** [ParamContainer]: whether the four [addParam] calls succeed, and the
    option table that [parseCommandLine] yields on [errOk]. *)
Variable cl_addParam_ok : bool.
Variable cl_parseCommandLine : list string -> option (string -> string).

(** The file-scope variables of the driver, with [cerr]. *)
Record Globals : Type := mkGlobals
  { stateOutputFileName : string;
    stateInputFileName : string;
    memOutputFileName : string;
    memInputFileName : string;
    fReadMemImage : bool;
    fWriteMemImage : bool;
    poolsize : list Z;
    model : Model;
    Tsim : BGFLOAT;
    numSims : Z;
    maxFiringRate : Z;
    maxSynapsesPerNeuron : Z;
    seed : Z;
    cerr : list string }.

Definition set_stateOutputFileName (v : string) (g : Globals) : Globals :=
  {| stateOutputFileName := v;
     stateInputFileName := stateInputFileName g;
     memOutputFileName := memOutputFileName g;
     memInputFileName := memInputFileName g;
     fReadMemImage := fReadMemImage g;
     fWriteMemImage := fWriteMemImage g;
     poolsize := poolsize g;
     model := model g;
     Tsim := Tsim g;
     numSims := numSims g;
     maxFiringRate := maxFiringRate g;
     maxSynapsesPerNeuron := maxSynapsesPerNeuron g;
     seed := seed g;
     cerr := cerr g |}.

Definition set_stateInputFileName (v : string) (g : Globals) : Globals :=
  {| stateOutputFileName := stateOutputFileName g;
     stateInputFileName := v;
     memOutputFileName := memOutputFileName g;
     memInputFileName := memInputFileName g;
     fReadMemImage := fReadMemImage g;
     fWriteMemImage := fWriteMemImage g;
     poolsize := poolsize g;
     model := model g;
     Tsim := Tsim g;
     numSims := numSims g;
     maxFiringRate := maxFiringRate g;
     maxSynapsesPerNeuron := maxSynapsesPerNeuron g;
     seed := seed g;
     cerr := cerr g |}.

Definition set_memOutputFileName (v : string) (g : Globals) : Globals :=
  {| stateOutputFileName := stateOutputFileName g;
     stateInputFileName := stateInputFileName g;
     memOutputFileName := v;
     memInputFileName := memInputFileName g;
     fReadMemImage := fReadMemImage g;
     fWriteMemImage := fWriteMemImage g;
     poolsize := poolsize g;
     model := model g;
     Tsim := Tsim g;
     numSims := numSims g;
     maxFiringRate := maxFiringRate g;
     maxSynapsesPerNeuron := maxSynapsesPerNeuron g;
     seed := seed g;
     cerr := cerr g |}.

Definition set_memInputFileName (v : string) (g : Globals) : Globals :=
  {| stateOutputFileName := stateOutputFileName g;
     stateInputFileName := stateInputFileName g;
     memOutputFileName := memOutputFileName g;
     memInputFileName := v;
     fReadMemImage := fReadMemImage g;
     fWriteMemImage := fWriteMemImage g;
     poolsize := poolsize g;
     model := model g;
     Tsim := Tsim g;
     numSims := numSims g;
     maxFiringRate := maxFiringRate g;
     maxSynapsesPerNeuron := maxSynapsesPerNeuron g;
     seed := seed g;
     cerr := cerr g |}.

Definition set_fReadMemImage (v : bool) (g : Globals) : Globals :=
  {| stateOutputFileName := stateOutputFileName g;
     stateInputFileName := stateInputFileName g;
     memOutputFileName := memOutputFileName g;
     memInputFileName := memInputFileName g;
     fReadMemImage := v;
     fWriteMemImage := fWriteMemImage g;
     poolsize := poolsize g;
     model := model g;
     Tsim := Tsim g;
     numSims := numSims g;
     maxFiringRate := maxFiringRate g;
     maxSynapsesPerNeuron := maxSynapsesPerNeuron g;
     seed := seed g;
     cerr := cerr g |}.

Definition set_fWriteMemImage (v : bool) (g : Globals) : Globals :=
  {| stateOutputFileName := stateOutputFileName g;
     stateInputFileName := stateInputFileName g;
     memOutputFileName := memOutputFileName g;
     memInputFileName := memInputFileName g;
     fReadMemImage := fReadMemImage g;
     fWriteMemImage := v;
     poolsize := poolsize g;
     model := model g;
     Tsim := Tsim g;
     numSims := numSims g;
     maxFiringRate := maxFiringRate g;
     maxSynapsesPerNeuron := maxSynapsesPerNeuron g;
     seed := seed g;
     cerr := cerr g |}.

Definition set_poolsize (v : list Z) (g : Globals) : Globals :=
  {| stateOutputFileName := stateOutputFileName g;
     stateInputFileName := stateInputFileName g;
     memOutputFileName := memOutputFileName g;
     memInputFileName := memInputFileName g;
     fReadMemImage := fReadMemImage g;
     fWriteMemImage := fWriteMemImage g;
     poolsize := v;
     model := model g;
     Tsim := Tsim g;
     numSims := numSims g;
     maxFiringRate := maxFiringRate g;
     maxSynapsesPerNeuron := maxSynapsesPerNeuron g;
     seed := seed g;
     cerr := cerr g |}.

Definition set_model (v : Model) (g : Globals) : Globals :=
  {| stateOutputFileName := stateOutputFileName g;
     stateInputFileName := stateInputFileName g;
     memOutputFileName := memOutputFileName g;
     memInputFileName := memInputFileName g;
     fReadMemImage := fReadMemImage g;
     fWriteMemImage := fWriteMemImage g;
     poolsize := poolsize g;
     model := v;
     Tsim := Tsim g;
     numSims := numSims g;
     maxFiringRate := maxFiringRate g;
     maxSynapsesPerNeuron := maxSynapsesPerNeuron g;
     seed := seed g;
     cerr := cerr g |}.

Definition set_Tsim (v : BGFLOAT) (g : Globals) : Globals :=
  {| stateOutputFileName := stateOutputFileName g;
     stateInputFileName := stateInputFileName g;
     memOutputFileName := memOutputFileName g;
     memInputFileName := memInputFileName g;
     fReadMemImage := fReadMemImage g;
     fWriteMemImage := fWriteMemImage g;
     poolsize := poolsize g;
     model := model g;
     Tsim := v;
     numSims := numSims g;
     maxFiringRate := maxFiringRate g;
     maxSynapsesPerNeuron := maxSynapsesPerNeuron g;
     seed := seed g;
     cerr := cerr g |}.

Definition set_numSims (v : Z) (g : Globals) : Globals :=
  {| stateOutputFileName := stateOutputFileName g;
     stateInputFileName := stateInputFileName g;
     memOutputFileName := memOutputFileName g;
     memInputFileName := memInputFileName g;
     fReadMemImage := fReadMemImage g;
     fWriteMemImage := fWriteMemImage g;
     poolsize := poolsize g;
     model := model g;
     Tsim := Tsim g;
     numSims := v;
     maxFiringRate := maxFiringRate g;
     maxSynapsesPerNeuron := maxSynapsesPerNeuron g;
     seed := seed g;
     cerr := cerr g |}.

Definition set_maxFiringRate (v : Z) (g : Globals) : Globals :=
  {| stateOutputFileName := stateOutputFileName g;
     stateInputFileName := stateInputFileName g;
     memOutputFileName := memOutputFileName g;
     memInputFileName := memInputFileName g;
     fReadMemImage := fReadMemImage g;
     fWriteMemImage := fWriteMemImage g;
     poolsize := poolsize g;
     model := model g;
     Tsim := Tsim g;
     numSims := numSims g;
     maxFiringRate := v;
     maxSynapsesPerNeuron := maxSynapsesPerNeuron g;
     seed := seed g;
     cerr := cerr g |}.

Definition set_maxSynapsesPerNeuron (v : Z) (g : Globals) : Globals :=
  {| stateOutputFileName := stateOutputFileName g;
     stateInputFileName := stateInputFileName g;
     memOutputFileName := memOutputFileName g;
     memInputFileName := memInputFileName g;
     fReadMemImage := fReadMemImage g;
     fWriteMemImage := fWriteMemImage g;
     poolsize := poolsize g;
     model := model g;
     Tsim := Tsim g;
     numSims := numSims g;
     maxFiringRate := maxFiringRate g;
     maxSynapsesPerNeuron := v;
     seed := seed g;
     cerr := cerr g |}.

Definition set_seed (v : Z) (g : Globals) : Globals :=
  {| stateOutputFileName := stateOutputFileName g;
     stateInputFileName := stateInputFileName g;
     memOutputFileName := memOutputFileName g;
     memInputFileName := memInputFileName g;
     fReadMemImage := fReadMemImage g;
     fWriteMemImage := fWriteMemImage g;
     poolsize := poolsize g;
     model := model g;
     Tsim := Tsim g;
     numSims := numSims g;
     maxFiringRate := maxFiringRate g;
     maxSynapsesPerNeuron := maxSynapsesPerNeuron g;
     seed := v;
     cerr := cerr g |}.

Definition set_cerr (v : list string) (g : Globals) : Globals :=
  {| stateOutputFileName := stateOutputFileName g;
     stateInputFileName := stateInputFileName g;
     memOutputFileName := memOutputFileName g;
     memInputFileName := memInputFileName g;
     fReadMemImage := fReadMemImage g;
     fWriteMemImage := fWriteMemImage g;
     poolsize := poolsize g;
     model := model g;
     Tsim := Tsim g;
     numSims := numSims g;
     maxFiringRate := maxFiringRate g;
     maxSynapsesPerNeuron := maxSynapsesPerNeuron g;
     seed := seed g;
     cerr := v |}.

Definition initial_globals : Globals :=
  {| stateOutputFileName := ""; stateInputFileName := "";
     memOutputFileName := ""; memInputFileName := "";
     fReadMemImage := false; fWriteMemImage := false;
     poolsize := [0; 0; 0];
     model := new_LIFSingleThreadedModel;
     Tsim := 0%Q; numSims := 0; maxFiringRate := 0;
     maxSynapsesPerNeuron := 0; seed := 0; cerr := [] |}.

(** Code that reads and writes the globals. *)
Definition Proc (A : Type) : Type := Globals -> A * Globals.

Definition ret {A : Type} (a : A) : Proc A := fun g => (a, g).

Definition bind {A B : Type} (c : Proc A) (k : A -> Proc B) : Proc B :=
  fun g => let (a, g') := c g in k a g'.

Notation "x <- c ;; k" := (bind c (fun x => k))
  (at level 61, c at next level, right associativity).
Notation "c ;;; k" := (bind c (fun _ => k))
  (at level 61, right associativity).

Definition modify (f : Globals -> Globals) : Proc unit :=
  fun g => (tt, f g).

(** [cerr << msg << endl] *)
Definition cerr_endl (msg : string) : Proc unit :=
  modify (fun g => set_cerr (cerr g ++ [msg]) g).

(** [if (temp->Query...(name, &var) != TIXML_SUCCESS)
      { fSet = false; cerr << "error " name << endl; }]
    The variable is assigned only on success. *)
Definition query_or_flag {A : Type} (q : QueryResult A)
    (assign : A -> Globals -> Globals) (name : string) (fSet : bool)
  : Proc bool :=
  match q with
  | TIXML_SUCCESS v => modify (assign v) ;;; ret fSet
  | _ => cerr_endl ("error " ++ name)%string ;;; ret false
  end.

Definition KII_message : string :=
  "Failed to initialize one or more simulation parameters; check XML".

Definition LoadSimParms (parms : TiXmlElement) : Proc (Outcome unit) :=
  let fSet := true in
  fSet <- match FirstChildElement "PoolSize" (children parms) with
          | Some temp =>
              fSet <- query_or_flag (QueryAttribute scan_int "x" temp)
                        (fun v g => set_poolsize (store 0 v (poolsize g)) g)
                        "x" fSet ;;
              fSet <- query_or_flag (QueryAttribute scan_int "y" temp)
                        (fun v g => set_poolsize (store 1 v (poolsize g)) g)
                        "y" fSet ;;
              query_or_flag (QueryAttribute scan_int "z" temp)
                (fun v g => set_poolsize (store 2 v (poolsize g)) g)
                "z" fSet
          | None => cerr_endl "missing PoolSize" ;;; ret false
          end ;;
  fSet <- match FirstChildElement "SimParams" (children parms) with
          | Some temp =>
              fSet <- query_or_flag (QueryAttribute scan_FLOAT "Tsim" temp)
                        set_Tsim "Tsim" fSet ;;
              fSet <- query_or_flag (QueryAttribute scan_int "numSims" temp)
                        set_numSims "numSims" fSet ;;
              fSet <- query_or_flag
                        (QueryAttribute scan_int "maxFiringRate" temp)
                        set_maxFiringRate "maxFiringRate" fSet ;;
              query_or_flag
                (QueryAttribute scan_int "maxSynapsesPerNeuron" temp)
                set_maxSynapsesPerNeuron "maxSynapsesPerNeuron" fSet
          | None => cerr_endl "missing SimParams" ;;; ret false
          end ;;
  fSet <- match FirstChildElement "OutputParams" (children parms) with
          | Some temp =>
              query_or_flag
                (QueryAttribute scan_string "stateOutputFileName" temp)
                set_stateOutputFileName "stateOutputFileName" fSet
          | None => cerr_endl "missing OutputParams" ;;; ret false
          end ;;
  fSet <- match FirstChildElement "Seed" (children parms) with
          | Some temp =>
              query_or_flag (QueryAttribute scan_long "value" temp)
                set_seed "value" fSet
          | None => cerr_endl "missing Seed" ;;; ret false
          end ;;
  if negb fSet then ret (Thrown KII_message) else ret (Returned tt).

(** A field that [LoadSimParms] reads: an element of the parameter file,
    one of its attributes, and the conversion its text must pass.  A field
    is in order when the element is there, the attribute is there and the
    text converts.  [required_fields_ok] goes through the nine of them; the
    fields that the model object reads in [readParameters] are not among
    them. *)
Definition field_ok {A : Type} (scan : string -> option A)
    (element attribute : string) (parms : TiXmlElement) : bool :=
  match FirstChildElement element (children parms) with
  | None => false
  | Some e =>
      match Attribute attribute e with
      | None => false
      | Some text => match scan text with Some _ => true | None => false end
      end
  end.

Definition required_fields_ok (parms : TiXmlElement) : bool :=
  field_ok scan_int "PoolSize" "x" parms
  && field_ok scan_int "PoolSize" "y" parms
  && field_ok scan_int "PoolSize" "z" parms
  && field_ok scan_FLOAT "SimParams" "Tsim" parms
  && field_ok scan_int "SimParams" "numSims" parms
  && field_ok scan_int "SimParams" "maxFiringRate" parms
  && field_ok scan_int "SimParams" "maxSynapsesPerNeuron" parms
  && field_ok scan_string "OutputParams" "stateOutputFileName" parms
  && field_ok scan_long "Seed" "value" parms.

(** What the parameter format expects on [cerr] for a parameter file: one
    line for each required element that is missing, and one for each
    attribute of a present element that is missing or does not convert, in
    the order of the format. *)
Definition attribute_report {A : Type} (scan : string -> option A)
    (attribute : string) (temp : TiXmlElement) : list string :=
  if succeeded (QueryAttribute scan attribute temp) then []
  else [("error " ++ attribute)%string].

Definition element_report (element : string)
    (attribute_reports : TiXmlElement -> list string) (parms : TiXmlElement)
  : list string :=
  match FirstChildElement element (children parms) with
  | Some temp => attribute_reports temp
  | None => [("missing " ++ element)%string]
  end.

Definition reports (parms : TiXmlElement) : list string :=
  element_report "PoolSize"
    (fun temp => attribute_report scan_int "x" temp
                 ++ attribute_report scan_int "y" temp
                 ++ attribute_report scan_int "z" temp) parms
  ++ element_report "SimParams"
       (fun temp => attribute_report scan_FLOAT "Tsim" temp
                    ++ attribute_report scan_int "numSims" temp
                    ++ attribute_report scan_int "maxFiringRate" temp
                    ++ attribute_report scan_int "maxSynapsesPerNeuron" temp)
       parms
  ++ element_report "OutputParams"
       (fun temp => attribute_report scan_string "stateOutputFileName" temp)
       parms
  ++ element_report "Seed"
       (fun temp => attribute_report scan_long "value" temp) parms.

(** The files the driver can read: the top-level elements of a parameter
    document ([None] when [LoadFile] fails) and the content of a memory
    image. *)
Record Files : Type := mkFiles
  { xml_file : string -> option (list TiXmlElement);
    mem_file : string -> Image }.

Variable files : Files.

(** The description and position of a parse error, which TinyXML adds to
    the first message, are left out. *)
Definition load_simulation_parameters (sim_param_filename : string)
  : Proc bool :=
  match xml_file files sim_param_filename with
  | None =>
      cerr_endl ("Failed loading simulation parameter file "
                 ++ sim_param_filename)%string ;;;
      ret false
  | Some simDoc =>
      match FirstChildElement "SimParams" simDoc with
      | None =>
          cerr_endl ("Could not find <SimParms> in simulation parameter file "
                     ++ sim_param_filename)%string ;;;
          ret false
      | Some parms =>
          (* try { LoadSimParms(parms); model->readParameters(parms); } *)
          r <- LoadSimParms parms ;;
          match r with
          | Thrown what =>
              cerr_endl ("Failure loading simulation parameters from file "
                         ++ sim_param_filename ++ ":" ++ nl_tab ++ what)%string ;;;
              ret false
          | Returned _ =>
              r <- (fun g => let (r, m) := readParameters parms (model g) in
                             (r, set_model m g)) ;;
              match r with
              | Thrown what =>
                  cerr_endl
                    ("Failure loading simulation parameters from file "
                     ++ sim_param_filename ++ ":" ++ nl_tab ++ what)%string ;;;
                  ret false
              | Returned _ => ret true
              end
          end
      end
  end.

(** The help text that [dumpHelp] prints when the command line does not
    parse is left out. *)
Definition parseCommandLine (argv : list string) : Proc bool :=
  if negb cl_addParam_ok then
    cerr_endl "Internal error creating command line parser" ;;; ret false
  else
    match cl_parseCommandLine argv with
    | None => ret false
    | Some cl =>
        modify (set_stateOutputFileName (cl "stateoutfile")) ;;;
        modify (set_stateInputFileName (cl "stateinfile")) ;;;
        modify (set_memInputFileName (cl "meminfile")) ;;;
        modify (set_memOutputFileName (cl "memoutfile")) ;;;
        modify (fun g => if negb (String.eqb (memInputFileName g) "")
                         then set_fReadMemImage true g else g) ;;;
        modify (fun g => if negb (String.eqb (memOutputFileName g) "")
                         then set_fWriteMemImage true g else g) ;;;
        ret true
    end.

(** What a run of the program leaves behind: the exit status, the
    globals (with everything sent to [cerr]), the state file and the
    memory image when they were written, and the world when a simulator
    was built. *)
Record MainResult : Type := mkMainResult
  { exit_status : Z;
    globals : Globals;
    state_out : option (string * ostream);
    memory_out : option (string * Image);
    world : option (World Net) }.

Definition aborted (g : Globals) : MainResult :=
  {| exit_status := -1; globals := g; state_out := None;
     memory_out := None; world := None |}.

Definition main (argv : list string) : MainResult :=
  let (ok, g1) := parseCommandLine argv initial_globals in
  if negb ok then
    aborted (snd (cerr_endl "! ERROR: failed during command line parse" g1))
  else
    let (ok, g2) := load_simulation_parameters (stateInputFileName g1) g1 in
    if negb ok then
      aborted (snd (cerr_endl
                      "! ERROR: failed while parsing simulation parameters."
                      g2))
    else
      let numNeurons := nth 0 (poolsize g2) 0 * nth 1 (poolsize g2) 0 in
      let si := makeSimulationInfo (nth 0 (poolsize g2) 0)
                  (nth 1 (poolsize g2) 0) (Tsim g2) (inject_Z (numSims g2))
                  (maxFiringRate g2) (maxSynapsesPerNeuron g2) DEFAULT_dt
                  (seed g2) in
      let w0 := mkWorld 0 (new_Network (model g2) si) in
      let w1 := if fReadMemImage g2
                then readMemory (mem_file files (memInputFileName g2)) w0
                else w0 in
      let w2 := simulate si w1 in
      {| exit_status := 0;
         globals := g2;
         state_out := Some (stateOutputFileName g2, saveState si w2);
         memory_out := if fWriteMemImage g2
                       then Some (memOutputFileName g2, saveMemory si w2)
                       else None;
         world := Some w2 |}.

End Driver.

Arguments cerr {Model}.
Arguments poolsize {Model}.
Arguments stateInputFileName {Model}.
Arguments exit_status {Net Image Model}.
Arguments globals {Net Image Model}.
Arguments state_out {Net Image Model}.
Arguments memory_out {Net Image Model}.
Arguments world {Net Image Model}.

End Driver.

(** The value a parameter file gives to a field: the converted text of the
    attribute of the first element of that name, when all of that is
    there. *)
Definition field_value {A : Type} (scan : string -> option A)
    (element attribute : string) (parms : TiXmlElement) : option A :=
  match FirstChildElement element (children parms) with
  | None => None
  | Some e =>
      match Attribute attribute e with
      | None => None
      | Some text => scan text
      end
  end.

(** ** Growth parameters and connection state (LIFModel.h) *)

Record GrowthParams : Type := mkGrowthParams
  { epsilon : BGFLOAT;
    beta : BGFLOAT;
    rho : BGFLOAT;
    targetRate : BGFLOAT;
    maxRate : BGFLOAT;
    minRadius : BGFLOAT;
    startRadius : BGFLOAT }.

(** The fields of [LIFModel::Connections] that the growth update reads and
    writes.  A history is a list of rows, oldest first. *)
Record Connections : Type := mkConnections
  { spikeCounts : list Z;
    radii : list BGFLOAT;
    rates : list BGFLOAT;
    outgrowth : list BGFLOAT;
    deltaR : list BGFLOAT;
    radiiHistory : list (list BGFLOAT);
    ratesHistory : list (list BGFLOAT) }.

(** ** The connection growth engine

    LIFModel.cpp and the single-threaded model are not among the sources:
    only the declarations above are.  The update below follows the
    specification of the growth engine step by step. *)

Module Growth.

Section Growth.

(** Neurons and synapses: everything of the network that is not
    connection state.  One tick reports which neurons fired; the rewiring
    pass sees the new radii. *)
Variable Dyn : Type.
Variable advanceDyn : Z -> Dyn -> Dyn * list bool.
Variable rewire : list BGFLOAT -> Dyn -> Dyn.

(** [exp] of the C library. *)
Variable exp : BGFLOAT -> BGFLOAT.

Variable m_growth : GrowthParams.
Variable sim_info : SimulationInfo.

(** Modelled from the spec: the state of a network, the dynamical state
    of neurons and synapses together with the connection state that the
    growth engine owns (Network.cpp is missing). *)
Record Net : Type := mkNet
  { dyn : Dyn;
    conns : Connections }.

(** Modelled from the spec: the neuron step increments the epoch spike
    count of every neuron that fires (LIFSingleThreadedModel.cpp is
    missing). *)
Fixpoint count_spikes (counts : list Z) (fired : list bool) : list Z :=
  match counts, fired with
  | c :: counts', f :: fired' =>
      (if f then c + 1 else c) :: count_spikes counts' fired'
  | _, _ => counts
  end.

(** Modelled from the spec: rate update, step 1 of the growth engine
    (the body of [updateConnections] is missing):
    rate = epochSpikeCount / epochDuration. *)
Definition rate_of (count : Z) : BGFLOAT :=
  (inject_Z count / epochDuration sim_info)%Q.

(** Modelled from the spec: outgrowth computation, step 2 of the growth
    engine (the body of [updateConnections] is missing). *)
Definition outgrowth_of (rate : BGFLOAT) : BGFLOAT :=
  (1 / (1 + exp ((epsilon m_growth * maxRate m_growth - rate)
                 / beta m_growth))
   - 1 / (1 + exp (epsilon m_growth * maxRate m_growth / beta m_growth)))%Q.

(** Modelled from the spec: radius update, step 3 of the growth engine
    (the body of [updateConnections] is missing):
    radius = max(minRadius, radius + deltaR). *)
Definition new_radius (radius delta : BGFLOAT) : BGFLOAT :=
  Qmax (minRadius m_growth) (radius + delta)%Q.

(** Modelled from the spec: the radius update applied to every neuron
    (the body of [updateConnections] is missing). *)
Definition update_radii (rs ds : list BGFLOAT) : list BGFLOAT :=
  map (fun rd => new_radius (fst rd) (snd rd)) (combine rs ds).

(** Modelled from the spec: one run of the growth engine on the
    connection state, steps 1 to 3 and 6 (the body of [updateConnections]
    is missing).  Each history receives one new row and no other write. *)
Definition grow (c : Connections) : Connections :=
  let rates' := map rate_of (spikeCounts c) in
  let outgrowth' := map outgrowth_of rates' in
  let deltaR' := outgrowth' in
  let radii' := update_radii (radii c) deltaR' in
  {| spikeCounts := map (fun _ => 0) (spikeCounts c);
     radii := radii';
     rates := rates';
     outgrowth := outgrowth';
     deltaR := deltaR';
     radiiHistory := radiiHistory c ++ [radii'];
     ratesHistory := ratesHistory c ++ [rates'] |}.

Definition with_spikeCounts (counts : list Z) (c : Connections)
  : Connections :=
  {| spikeCounts := counts;
     radii := radii c;
     rates := rates c;
     outgrowth := outgrowth c;
     deltaR := deltaR c;
     radiiHistory := radiiHistory c;
     ratesHistory := ratesHistory c |}.

Definition history_tokens (h : list (list BGFLOAT)) : ostream :=
  flat_map (fun row => map TFloat row ++ [TEndl]) h.

(** Modelled from the spec: the network as the scheduler drives it
    (Network.cpp is missing).  A tick touches the connection state only
    through the spike counts; the growth update runs the engine and then
    rewires; the histories belong to the engine alone; a memory image
    holds the tick counter and the whole network. *)
Definition GrowthNetwork : NetworkOps Net (Z * Net) :=
  {| setup := fun _ _ n => n;
     advance := fun g n =>
       let (d, fired) := advanceDyn g (dyn n) in
       {| dyn := d;
          conns := with_spikeCounts
                     (count_spikes (spikeCounts (conns n)) fired)
                     (conns n) |};
     updateConnections := fun _ n =>
       let c := grow (conns n) in
       {| dyn := rewire (radii c) (dyn n); conns := c |};
     finish := fun _ _ n => n;
     net_saveState := fun n =>
       history_tokens (radiiHistory (conns n))
       ++ history_tokens (ratesHistory (conns n));
     readSimMemory := fun img _ _ => img;
     writeSimMemory := fun _ g n => (g, n) |}.

(** Modelled from the spec: a network that has not grown yet, every radius
    at [startRadius] and the histories empty (the constructor of
    [Connections] is declared in LIFModel.h, its body is missing). *)
Definition fresh_connections (neuron_count : nat) : Connections :=
  {| spikeCounts := repeat 0 neuron_count;
     radii := repeat (startRadius m_growth) neuron_count;
     rates := repeat 0%Q neuron_count;
     outgrowth := repeat 0%Q neuron_count;
     deltaR := repeat 0%Q neuron_count;
     radiiHistory := [];
     ratesHistory := [] |}.

End Growth.

End Growth.

(** ** The synaptic delay queue

    The synapse code is not among the sources; LIFModel.h fixes the width of
    the queue, and the operations follow the specification of the synapse
    bank. *)

Module DelayQueue.

Definition BYTES_OF_DELAYQUEUE : Z := 4 / 1.
Definition LENGTH_OF_DELAYQUEUE : Z := BYTES_OF_DELAYQUEUE * 8.

(** The queue is one [uint32_t]. *)
Definition wrap32 (z : Z) : Z := z mod 2 ^ LENGTH_OF_DELAYQUEUE.

(** Modelled from the spec: the part of a synapse that schedules
    deliveries, its delay queue and its delay in ticks (the synapse code is
    missing). *)
Record Synapse : Type := mkSynapse
  { delayQueue : Z;
    total_delay : Z }.

(** Modelled from the spec: [notify] sets the bit at position
    (now + delay) mod bufferWidth (the synapse code is missing). *)
Definition notify (now : Z) (s : Synapse) : Synapse :=
  let idx := (now + total_delay s) mod LENGTH_OF_DELAYQUEUE in
  {| delayQueue := wrap32 (Z.lor (delayQueue s) (Z.shiftl 1 idx));
     total_delay := total_delay s |}.

(** Modelled from the spec: [step] tests the bit for tick mod bufferWidth;
    when it is set the bit is cleared and the charge is delivered (the
    synapse code is missing).  The result says whether charge was
    delivered. *)
Definition step (tick : Z) (s : Synapse) : bool * Synapse :=
  let idx := tick mod LENGTH_OF_DELAYQUEUE in
  if Z.testbit (delayQueue s) idx then
    (true,
     {| delayQueue := Z.ldiff (delayQueue s) (Z.shiftl 1 idx);
        total_delay := total_delay s |})
  else (false, s).

(** Modelled from the spec: within one tick the neuron pass, which
    notifies the synapse when its source fires, comes before the synapse
    pass. *)
Definition tick_synapse (spikes : Z -> bool) (t : Z) (s : Synapse)
  : bool * Synapse :=
  step t (if spikes t then notify t s else s).

(** Modelled from the spec: [n] ticks of one synapse from tick [t] on (the
    per-tick loop over synapses is missing); the result is the ticks at
    which charge was delivered, and the synapse at the end. *)
Fixpoint run (spikes : Z -> bool) (n : nat) (t : Z) (s : Synapse)
  : list Z * Synapse :=
  match n with
  | O => ([], s)
  | S n' =>
      let (d, s1) := tick_synapse spikes t s in
      let (ds, s2) := run spikes n' (t + 1) s1 in
      ((if d then [t] else []) ++ ds, s2)
  end.

(** The ticks [t, t+n). *)
Definition ticks_from (t : Z) (n : nat) : list Z :=
  map (fun i => t + Z.of_nat i) (seq 0 n).

(** What a queue [q] that has been run since tick [t0] holds just before
    tick [t]: the bit of tick [u], for [u] in the coming buffer width, is
    set exactly when the source fired [delay] ticks before [u], at or
    after [t0] and before [t]. *)
Definition holds_pending (spikes : Z -> bool) (delay t0 : Z) (t q : Z)
  : Prop :=
  forall u, t <= u < t + 32 ->
    Z.testbit q (u mod 32)
    = spikes (u - delay) && (t0 <=? u - delay) && (u - delay <? t).

End DelayQueue.

(** ** Sample inputs *)

(** A 2 x 2 pool, two epochs of three ticks each. *)
Definition tiny_info : SimulationInfo :=
  makeSimulationInfo 2 2 1%Q (inject_Z 2) 200 200 (1 # 3)%Q 1.


(** A command line naming the parameter file [tiny.xml], a conversion that
    knows the numerals of that file, and two parameter files: one complete,
    one whose [PoolSize] lacks [z] and whose [Seed] is not a number. *)
Definition sample_cl (name : string) : string :=
  if String.eqb name "stateinfile" then "tiny.xml" else "".

Definition sample_scan_int (text : string) : option Z :=
  if String.eqb text "1" then Some 1
  else if String.eqb text "2" then Some 2
  else if String.eqb text "200" then Some 200
  else None.

Definition sample_scan_FLOAT (text : string) : option BGFLOAT :=
  if String.eqb text "0.0003" then Some (3 # 10000)%Q else None.

Definition sample_scan_string (text : string) : option string :=
  if String.eqb text "" then None else Some text.

Definition tiny_xml : TiXmlElement :=
  XmlElement "SimParams" []
    [ XmlElement "PoolSize" [("x", "2"); ("y", "2"); ("z", "1")] [];
      XmlElement "SimParams"
        [("Tsim", "0.0003"); ("numSims", "1"); ("maxFiringRate", "200");
         ("maxSynapsesPerNeuron", "200")] [];
      XmlElement "OutputParams" [("stateOutputFileName", "tiny-out.xml")] [];
      XmlElement "Seed" [("value", "1")] [] ].

Definition broken_xml : TiXmlElement :=
  XmlElement "SimParams" []
    [ XmlElement "PoolSize" [("x", "2"); ("y", "2")] [];
      XmlElement "SimParams"
        [("Tsim", "0.0003"); ("numSims", "1"); ("maxFiringRate", "200");
         ("maxSynapsesPerNeuron", "200")] [];
      XmlElement "OutputParams" [("stateOutputFileName", "tiny-out.xml")] [];
      XmlElement "Seed" [("value", "one")] [] ].

Definition sample_files (doc : TiXmlElement) : Driver.Files (Image := Z * Trace) :=
  {| Driver.xml_file := fun name =>
       if String.eqb name "tiny.xml" then Some [doc] else None;
     Driver.mem_file := fun _ => (0, []) |}.

(** The program on the recording network, with a model object that accepts
    every parameter file. *)
Definition sample_main (doc : TiXmlElement) : Driver.MainResult unit :=
  Driver.main unit tt (fun _ m => (Returned true, m)) (fun _ _ => ([] : Trace))
    (1 # 10000)%Q sample_scan_int sample_scan_FLOAT sample_scan_int
    sample_scan_string true (fun _ => Some sample_cl) (sample_files doc)
    ["growth"; "-t"; "tiny.xml"].

(** A growth network of two neurons of which the first fires at every tick,
    with the growth parameters of the validation file. *)
Definition sample_growth : GrowthParams :=
  {| epsilon := (6 # 10)%Q; beta := (1 # 10)%Q; rho := (1 # 10000)%Q;
     targetRate := (19 # 10)%Q; maxRate := (19 # 6)%Q;
     minRadius := (1 # 10)%Q; startRadius := (4 # 10)%Q |}.

Definition sample_network : NetworkOps (Growth.Net unit) (Z * Growth.Net unit) :=
  Growth.GrowthNetwork unit (fun _ d => (d, [true; false])) (fun _ d => d)
    (fun x => x) sample_growth tiny_info.

Definition sample_world : World (Growth.Net unit) :=
  mkWorld 0 (Growth.mkNet unit tt (Growth.fresh_connections sample_growth 2)).

(** A source that fires at tick 2 and at tick 4. *)
Definition sample_spikes (t : Z) : bool := (t =? 2) || (t =? 4).

(** The calls made inside an epoch: a tick or a growth update. *)
Definition is_epoch_event (e : Event) : bool :=
  match e with
  | EAdvance _ | EUpdateConnections _ => true
  | ESetup _ _ | EFinish _ _ => false
  end.

(** The counter has stayed in range and has not gone back since it was
    [g0], and the ticks logged since are [g0], [g0 + 1], ... up to the
    counter. *)
Definition counted_from (g0 : Z) (log0 : Trace) (w : World Trace) : Prop :=
  g0 <= g_simulationStep w < UINT64_MOD
  /\ advance_ticks (network w)
     = advance_ticks log0
       ++ map (fun i => g0 + Z.of_nat i)
            (seq 0 (Z.to_nat (g_simulationStep w - g0))).

(** Two epochs of 2^63 ticks each; two epochs shorter than one tick; a
    configuration that asks for no epoch. *)
Definition wrapping_info : SimulationInfo :=
  makeSimulationInfo 2 2 (inject_Z (2 ^ 63)) (inject_Z 2) 200 200 1%Q 1.

Definition short_info : SimulationInfo :=
  makeSimulationInfo 2 2 (1 # 20000)%Q (inject_Z 2) 200 200 (1 # 10000)%Q 1.

Definition idle_info : SimulationInfo :=
  makeSimulationInfo 2 2 1%Q (inject_Z 0) 200 200 (1 # 3)%Q 1.

(** The run of the validation file in a binary format: one epoch of 1.0 s
    at the time step 0.0001 s on a 2 x 2 pool, both numbers read into the
    format. *)
Definition validation_info (prec emax : Z) : IEEE.SimulationInfo :=
  {| IEEE.totalNeurons := 4;
     IEEE.epochDuration := IEEE.nearest prec emax 1 1;
     IEEE.maxSteps := 1;
     IEEE.maxFiringRate := 200;
     IEEE.maxSynapsesPerNeuron := 200;
     IEEE.width := 2;
     IEEE.height := 2;
     IEEE.deltaT := IEEE.nearest prec emax 1 10000;
     IEEE.seed := 1 |}.

(** One epoch of 8388614 * 2^-23 s (a little more than 1 s) at the time
    step 11184818 * 2^-25 s (a little more than 1/3 s), two numbers of
    [float]. *)
Definition third_info : IEEE.SimulationInfo :=
  {| IEEE.totalNeurons := 4;
     IEEE.epochDuration := S754_finite false 8388614 (-23);
     IEEE.maxSteps := 1;
     IEEE.maxFiringRate := 200;
     IEEE.maxSynapsesPerNeuron := 200;
     IEEE.width := 2;
     IEEE.height := 2;
     IEEE.deltaT := S754_finite false 11184818 (-25);
     IEEE.seed := 1 |}.

(** For a configuration in a binary format: the exact quotient of epoch
    duration and time step, the total maxSteps * epochDuration, and the end
    time that the state file reports after a run from tick 0. *)
Definition exact_ratio (si : IEEE.SimulationInfo) : Q :=
  (IEEE.value (IEEE.epochDuration si) / IEEE.value (IEEE.deltaT si))%Q.

Definition total_time (si : IEEE.SimulationInfo) : Q :=
  (inject_Z (IEEE.maxSteps si) * IEEE.value (IEEE.epochDuration si))%Q.

Definition reported_time (prec emax : Z) (si : IEEE.SimulationInfo) : Q :=
  IEEE.value
    (IEEE.simulationEndTime prec emax si
       (IEEE.simulate prec emax si (mkWorld 0 ([] : Trace)))).

(** The program of [sample_main] with a model object that reports failure:
    its [readParameters] returns [false] for every parameter file. *)
Definition sample_main_model_fails (doc : TiXmlElement)
  : Driver.MainResult unit :=
  Driver.main unit tt (fun _ m => (Returned false, m)) (fun _ _ => ([] : Trace))
    (1 # 10000)%Q sample_scan_int sample_scan_FLOAT sample_scan_int
    sample_scan_string true (fun _ => Some sample_cl) (sample_files doc)
    ["growth"; "-t"; "tiny.xml"].

(* ================================================================== *)
(** * Properties *)
(* ================================================================== *)

(** ** Machine numbers *)

Lemma wrap64_small (z : Z) : 0 <= z < UINT64_MOD -> wrap64 z = z.
Proof. intros Hz. unfold wrap64. now apply Z.mod_small. Qed.

Lemma wrap64_range (z : Z) : 0 <= wrap64 z < UINT64_MOD.
Proof. unfold wrap64. apply Z.mod_pos_bound. reflexivity. Qed.

Lemma ticksPerEpoch_range (si : SimulationInfo) :
  0 <= ticksPerEpoch si < UINT64_MOD.
Proof. unfold ticksPerEpoch, static_cast_uint64. apply wrap64_range. Qed.

(** ** Replaying logs *)

Section Replay.

Context {Net Image : Type} `{NetworkOps Net Image}.

Lemma replay_app (tr1 tr2 : Trace) (n : Net) :
  replay (tr1 ++ tr2) n = replay tr2 (replay tr1 n).
Proof. unfold replay. apply fold_left_app. Qed.

End Replay.

Lemma replay_trace (tr l : Trace) : replay tr l = l ++ tr.
Proof.
  revert l. induction tr as [|e tr IH]; intros l.
  - now rewrite app_nil_r.
  - change (replay (e :: tr) l) with (replay tr (replay_event e l)).
    rewrite IH. destruct e; cbn; now rewrite <- app_assoc.
Qed.

Lemma advances_shift (g : Z) (n : nat) :
  map (fun i => EAdvance (g + Z.of_nat i)) (seq 1 n)
  = map (fun i => EAdvance (g + 1 + Z.of_nat i)) (seq 0 n).
Proof.
  rewrite <- seq_shift, map_map. apply map_ext. intros i.
  f_equal. lia.
Qed.

(** ** The scheduler loops *)

Section SchedulerLoops.

Context {Net Image : Type} `{NetworkOps Net Image}.
Variable si : SimulationInfo.

Let T := ticksPerEpoch si.

(** [n] iterations of the [while] loop, when they end below 2^64. *)
Lemma advance_loop_replay (n : nat) : forall (g : Z) (net : Net),
  0 <= g -> g + Z.of_nat n < UINT64_MOD ->
  advance_loop n (g + Z.of_nat n) (mkWorld g net)
  = mkWorld (g + Z.of_nat n)
      (replay (map (fun i => EAdvance (g + Z.of_nat i)) (seq 0 n)) net).
Proof.
  induction n as [|n IH]; intros g net Hg Hlt.
  - cbn. now rewrite Z.add_0_r.
  - cbn [advance_loop g_simulationStep network].
    destruct (Z.ltb_spec g (g + Z.of_nat (S n))) as [_|Hge]; [|lia].
    rewrite wrap64_small by lia.
    replace (g + Z.of_nat (S n)) with (g + 1 + Z.of_nat n) by lia.
    rewrite IH by lia.
    f_equal. cbn [seq map]. rewrite advances_shift.
    rewrite Z.add_0_r. reflexivity.
Qed.

(** When the fuel of [advanceUntilGrowth] is spent the loop test is false:
    the bound never cuts the loop short. *)
Lemma advance_loop_exit (n : nat) : forall (e : Z) (w : World Net),
  0 <= g_simulationStep w -> e < UINT64_MOD ->
  (e - g_simulationStep w <= Z.of_nat n) ->
  e <= g_simulationStep (advance_loop n e w).
Proof.
  induction n as [|n IH]; intros e w Hg He Hn.
  - cbn. lia.
  - cbn [advance_loop].
    destruct (Z.ltb_spec (g_simulationStep w) e) as [Hlt|Hge]; [|exact Hge].
    apply IH; cbn [g_simulationStep]; rewrite ?wrap64_small; lia.
Qed.

Lemma advanceUntilGrowth_replay (k g : Z) (net : Net) :
  0 <= g -> g + T < UINT64_MOD ->
  advanceUntilGrowth si k (mkWorld g net)
  = mkWorld (g + T)
      (replay (map (fun i => EAdvance (g + Z.of_nat i)) (seq 0 (Z.to_nat T))) net).
Proof.
  intros Hg Hlt. unfold advanceUntilGrowth. cbn [g_simulationStep].
  fold T. pose proof (ticksPerEpoch_range si) as HT. fold T in HT.
  rewrite wrap64_small by lia.
  replace (g + T - g) with T by lia.
  assert (HTn : T = Z.of_nat (Z.to_nat T)) by (rewrite Z2Nat.id; lia).
  rewrite HTn at 2 3.
  apply advance_loop_replay; lia.
Qed.

Lemma growthCycle_replay (k g : Z) (net : Net) :
  0 <= g -> g + T < UINT64_MOD ->
  growthCycle si k (mkWorld g net)
  = mkWorld (g + T) (replay (epoch_events T g k) net).
Proof.
  intros Hg Hlt. unfold growthCycle.
  rewrite advanceUntilGrowth_replay by assumption.
  cbn [g_simulationStep network]. unfold epoch_events.
  rewrite replay_app. reflexivity.
Qed.

(** [n] iterations of the [for] loop entered with [currentStep = k]. *)
Lemma simulate_loop_replay (n : nat) : forall (k g : Z) (net : Net),
  0 <= g -> g + Z.of_nat n * T < UINT64_MOD ->
  (n <> O -> k + Z.of_nat n - 1 <= maxSteps si) ->
  simulate_loop si n k (mkWorld g net)
  = mkWorld (g + Z.of_nat n * T) (replay (epochs_events T n k g) net).
Proof.
  pose proof (ticksPerEpoch_range si) as HT. fold T in HT.
  induction n as [|n IH]; intros k g net Hg Hlt Hk.
  - cbn. now rewrite Z.add_0_r.
  - cbn [simulate_loop].
    destruct (Z.leb_spec k (maxSteps si)) as [_|Hgt]; [|lia].
    rewrite growthCycle_replay by nia.
    rewrite IH by (try nia; intros; lia).
    cbn [epochs_events]. rewrite replay_app.
    f_equal. lia.
Qed.

Lemma simulate_replay (g : Z) (net : Net) :
  let N := Z.to_nat (maxSteps si) in
  0 <= g -> g + Z.of_nat N * T < UINT64_MOD ->
  simulate si (mkWorld g net)
  = mkWorld (g + Z.of_nat N * T)
      (replay ([ESetup (epochDuration si) (maxSteps si)]
               ++ epochs_events T N 1 g
               ++ [EFinish (epochDuration si) (maxSteps si)]) net).
Proof.
  intros N Hg Hlt. unfold simulate, after_epochs, simulate_setup.
  cbn [g_simulationStep network]. fold N.
  rewrite simulate_loop_replay by (subst N; try lia; intros; lia).
  cbn [g_simulationStep network].
  rewrite !replay_app. reflexivity.
Qed.

End SchedulerLoops.

(** ** The [for] loop, one cycle at a time *)

Section OneMoreCycle.

Context {Net Image : Type} `{NetworkOps Net Image}.
Variable si : SimulationInfo.

Lemma simulate_loop_unfold (n : nat) (k : Z) (w : World Net) :
  simulate_loop si (S n) k w
  = if k <=? maxSteps si
    then simulate_loop si n (k + 1) (growthCycle si k w)
    else w.
Proof. reflexivity. Qed.

Lemma simulate_loop_snoc (n : nat) : forall (k : Z) (w : World Net),
  k + Z.of_nat n <= maxSteps si ->
  simulate_loop si (S n) k w
  = growthCycle si (k + Z.of_nat n) (simulate_loop si n k w).
Proof.
  induction n as [|n IH]; intros k w Hk.
  - rewrite simulate_loop_unfold.
    destruct (Z.leb_spec k (maxSteps si)) as [_|Hgt]; [|lia].
    cbn [simulate_loop]. now rewrite Z.add_0_r.
  - rewrite (simulate_loop_unfold (S n) k w), (simulate_loop_unfold n k w).
    destruct (Z.leb_spec k (maxSteps si)) as [_|Hgt]; [|lia].
    rewrite IH by lia. f_equal. lia.
Qed.

(** Epoch [n + 1] of a run of at least [n + 1] epochs. *)
Lemma after_epochs_S (n : nat) (w : World Net) :
  Z.of_nat n + 1 <= maxSteps si ->
  after_epochs si (S n) w
  = growthCycle si (1 + Z.of_nat n) (after_epochs si n w).
Proof.
  intros Hn. unfold after_epochs. apply simulate_loop_snoc. lia.
Qed.

End OneMoreCycle.

(** ** Shape of the log of a run *)

Lemma update_steps_app (tr1 tr2 : Trace) :
  update_steps (tr1 ++ tr2) = update_steps tr1 ++ update_steps tr2.
Proof. unfold update_steps. now rewrite flat_map_app. Qed.

Lemma advance_ticks_app (tr1 tr2 : Trace) :
  advance_ticks (tr1 ++ tr2) = advance_ticks tr1 ++ advance_ticks tr2.
Proof. unfold advance_ticks. now rewrite flat_map_app. Qed.

Lemma update_steps_advances (f : nat -> Z) (l : list nat) :
  update_steps (map (fun i => EAdvance (f i)) l) = [].
Proof. induction l as [|a l IH]; [reflexivity | exact IH]. Qed.

Lemma advance_ticks_advances (f : nat -> Z) (l : list nat) :
  advance_ticks (map (fun i => EAdvance (f i)) l) = map f l.
Proof.
  induction l as [|a l IH]; [reflexivity|].
  cbn [map]. change (advance_ticks (EAdvance (f a) :: ?t))
    with (f a :: advance_ticks t). cbn. f_equal. exact IH.
Qed.

Lemma update_steps_epoch (T g k : Z) : update_steps (epoch_events T g k) = [k].
Proof.
  unfold epoch_events. rewrite update_steps_app, update_steps_advances.
  reflexivity.
Qed.

Lemma advance_ticks_epoch (T g k : Z) :
  advance_ticks (epoch_events T g k)
  = map (fun i => g + Z.of_nat i) (seq 0 (Z.to_nat T)).
Proof.
  unfold epoch_events. rewrite advance_ticks_app, advance_ticks_advances.
  cbn. now rewrite app_nil_r.
Qed.

Lemma update_steps_epochs (T : Z) (n : nat) : forall (k g : Z),
  update_steps (epochs_events T n k g)
  = map (fun i => k + Z.of_nat i) (seq 0 n).
Proof.
  induction n as [|n IH]; intros k g; [reflexivity|].
  cbn [epochs_events]. rewrite update_steps_app, update_steps_epoch, IH.
  cbn [seq map app]. rewrite Z.add_0_r. f_equal.
  rewrite <- seq_shift, map_map. apply map_ext. intros i. lia.
Qed.

Lemma seq_from (a n : nat) : seq a n = map (Nat.add a) (seq 0 n).
Proof.
  revert a. induction n as [|n IH]; intros a; [reflexivity|].
  cbn [seq map]. rewrite Nat.add_0_r. f_equal.
  rewrite (IH (S a)), (IH 1%nat), map_map. apply map_ext. intros i. lia.
Qed.

Lemma advance_ticks_epochs (T : Z) (n : nat) : 0 <= T -> forall (k g : Z),
  advance_ticks (epochs_events T n k g)
  = map (fun i => g + Z.of_nat i) (seq 0 (n * Z.to_nat T)).
Proof.
  intros HT. induction n as [|n IH]; intros k g; [reflexivity|].
  cbn [epochs_events]. rewrite advance_ticks_app, advance_ticks_epoch, IH.
  cbn [Nat.mul]. rewrite seq_app, map_app. f_equal.
  cbn [Nat.add]. rewrite (seq_from (Z.to_nat T)), map_map.
  apply map_ext. intros i. lia.
Qed.

(** ** The scheduler as a state machine *)

Section SchedulerMachine.

Context {Net Image : Type} `{NetworkOps Net Image}.
Variable si : SimulationInfo.

Lemma sched_step_deterministic (s s1 s2 : Sched Net) :
  sched_step si s s1 -> sched_step si s s2 -> s1 = s2.
Proof.
  intros H1 H2.
  destruct H1; inversion H2; subst; try reflexivity; lia.
Qed.

Lemma finished_is_final (w : World Net) (s : Sched Net) :
  ~ sched_step si (Finished w) s.
Proof. intros Hs. inversion Hs. Qed.

(** Two complete executions from the same state end in the same world. *)
Lemma sched_steps_deterministic (s : Sched Net) (w1 w2 : World Net) :
  sched_steps si s (Finished w1) -> sched_steps si s (Finished w2) ->
  w1 = w2.
Proof.
  intros H1. remember (Finished w1) as f1 eqn:Ef1.
  revert w2. induction H1 as [s|s1 s2 s3 Hstep Hrest IH]; intros w2 H2.
  - subst s. inversion H2 as [|? ? ? Hstep' ?]; subst.
    + congruence.
    + now apply finished_is_final in Hstep'.
  - inversion H2 as [|? s2' ? Hstep' Hrest']; subst.
    + now apply finished_is_final in Hstep.
    + rewrite (sched_step_deterministic _ _ _ Hstep Hstep') in IH.
      now apply IH.
Qed.

Lemma sched_steps_trans (s1 s2 s3 : Sched Net) :
  sched_steps si s1 s2 -> sched_steps si s2 s3 -> sched_steps si s1 s3.
Proof.
  induction 1 as [|? ? ? Hstep _ IH]; [auto|].
  intros H3. eapply steps_cons; [exact Hstep | now apply IH].
Qed.

Lemma advance_loop_nonneg (n : nat) : forall (e : Z) (w : World Net),
  0 <= g_simulationStep w -> 0 <= g_simulationStep (advance_loop n e w).
Proof.
  induction n as [|n IH]; intros e w Hg; [exact Hg|].
  cbn [advance_loop].
  destruct (g_simulationStep w <? e); [|exact Hg].
  apply IH. cbn [g_simulationStep]. apply wrap64_range.
Qed.

(** The [while] loop, run with enough fuel, is an execution of the
    machine up to the growth update. *)
Lemma advance_loop_steps (n : nat) : forall (k e : Z) (w : World Net),
  0 <= g_simulationStep w -> e < UINT64_MOD ->
  e - g_simulationStep w <= Z.of_nat n ->
  sched_steps si (TickHead k e w)
    (EpochHead (k + 1)
       {| g_simulationStep := g_simulationStep (advance_loop n e w);
          network := updateConnections k (network (advance_loop n e w)) |}).
Proof.
  induction n as [|n IH]; intros k e w Hg He Hn.
  - cbn [advance_loop]. eapply steps_cons; [|apply steps_refl].
    apply step_grow. lia.
  - cbn [advance_loop].
    destruct (Z.ltb_spec (g_simulationStep w) e) as [Hlt|Hge].
    + eapply steps_cons; [apply step_tick; exact Hlt|].
      apply IH; cbn [g_simulationStep]; rewrite ?wrap64_small; lia.
    + eapply steps_cons; [|apply steps_refl]. apply step_grow. exact Hge.
Qed.

Lemma growthCycle_steps (k : Z) (w : World Net) :
  0 <= g_simulationStep w -> k <= maxSteps si ->
  sched_steps si (EpochHead k w) (EpochHead (k + 1) (growthCycle si k w)).
Proof.
  intros Hg Hk. eapply steps_cons; [apply step_enter; exact Hk|].
  unfold growthCycle, advanceUntilGrowth.
  pose proof (wrap64_range (g_simulationStep w + ticksPerEpoch si)) as Hr.
  apply advance_loop_steps; try lia.
Qed.

Lemma growthCycle_nonneg (k : Z) (w : World Net) :
  0 <= g_simulationStep w -> 0 <= g_simulationStep (growthCycle si k w).
Proof.
  intros Hg. unfold growthCycle, advanceUntilGrowth. cbn [g_simulationStep].
  now apply advance_loop_nonneg.
Qed.

(** The [for] loop, run with enough fuel, is an execution of the machine
    up to [Finished]. *)
Lemma simulate_loop_steps (n : nat) : forall (k : Z) (w : World Net),
  0 <= g_simulationStep w ->
  maxSteps si - k < Z.of_nat n ->
  sched_steps si (EpochHead k w)
    (Finished
       {| g_simulationStep := g_simulationStep (simulate_loop si n k w);
          network := finish (epochDuration si) (maxSteps si)
                       (network (simulate_loop si n k w)) |}).
Proof.
  induction n as [|n IH]; intros k w Hg Hn.
  - cbn [simulate_loop]. eapply steps_cons; [|apply steps_refl].
    apply step_finish. lia.
  - cbn [simulate_loop].
    destruct (Z.leb_spec k (maxSteps si)) as [Hle|Hgt].
    + eapply sched_steps_trans; [apply growthCycle_steps; assumption|].
      apply IH; [now apply growthCycle_nonneg | lia].
    + eapply steps_cons; [|apply steps_refl]. apply step_finish. exact Hgt.
Qed.

(** Every run terminates: from [Idle] the machine reaches [Finished], in
    the world that [simulate] computes. *)
Lemma simulate_terminates (w : World Net) :
  0 <= g_simulationStep w ->
  sched_steps si (Idle w) (Finished (simulate si w)).
Proof.
  intros Hg. eapply steps_cons; [apply step_setup|].
  unfold simulate, after_epochs.
  apply simulate_loop_steps; [exact Hg | lia].
Qed.

Lemma after_epochs_nonneg (n : nat) (w : World Net) :
  0 <= g_simulationStep w -> 0 <= g_simulationStep (after_epochs si n w).
Proof.
  intros Hg. unfold after_epochs.
  assert (Hs : 0 <= g_simulationStep (simulate_setup si w)) by exact Hg.
  revert Hs. generalize (simulate_setup si w) as w1. generalize 1 as k.
  induction n as [|n IH]; intros k w1 Hs; [exact Hs|].
  cbn [simulate_loop]. destruct (k <=? maxSteps si); [|exact Hs].
  apply IH. now apply growthCycle_nonneg.
Qed.

(** [after_epochs si n w] is the world in which the run from [w] arrives
    at the head of the [for] loop with [currentStep = n + 1]: the start of
    epoch [n + 1] when there is one, the end of the last epoch
    otherwise. *)
Lemma after_epochs_reached (n : nat) (w : World Net) :
  0 <= g_simulationStep w -> Z.of_nat n <= maxSteps si ->
  sched_steps si (Idle w) (EpochHead (1 + Z.of_nat n) (after_epochs si n w)).
Proof.
  intros Hg. induction n as [|n IH]; intros Hn.
  - eapply steps_cons; [apply step_setup | apply steps_refl].
  - eapply sched_steps_trans; [apply IH; lia|].
    rewrite after_epochs_S by lia.
    replace (1 + Z.of_nat (S n)) with (1 + Z.of_nat n + 1) by lia.
    apply growthCycle_steps; [now apply after_epochs_nonneg | lia].
Qed.

Lemma run_is_simulate (w w' : World Net) :
  0 <= g_simulationStep w ->
  sched_steps si (Idle w) (Finished w') -> w' = simulate si w.
Proof.
  intros Hg Hrun.
  exact (sched_steps_deterministic _ _ _ Hrun (simulate_terminates w Hg)).
Qed.

End SchedulerMachine.

(** C1.  For a configuration with N = maxSteps epochs the calls that
    [simulate] makes on the network are, in order: [setup]; then N times
    over (numbered 1 to N) one [advance] per tick for [ticksPerEpoch]
    ticks followed by exactly one growth update; then [finish], with which
    the scheduler reaches [Finished].  No growth update falls between the
    ticks of an epoch, and the run ends right after the N-th growth update.
    The tick counter is a [uint64_t]: the statement is for runs that do not
    take it past 2^64.  On any other network the final state is the replay
    of this log ([simulate_replay]). *)
Theorem simulate_epoch_structure (si : SimulationInfo) (g : Z) (log : Trace) :
  let T := ticksPerEpoch si in
  let N := Z.to_nat (maxSteps si) in
  0 <= g -> g + Z.of_nat N * T < UINT64_MOD ->
  network (simulate si (mkWorld g log))
  = log ++ [ESetup (epochDuration si) (maxSteps si)]
        ++ epochs_events T N 1 g
        ++ [EFinish (epochDuration si) (maxSteps si)]
  /\ sched_steps si (Idle (mkWorld g log)) (Finished (simulate si (mkWorld g log)))
  /\ update_steps (epochs_events T N 1 g)
     = map (fun i => 1 + Z.of_nat i) (seq 0 N)
  /\ List.length (advance_ticks (epochs_events T N 1 g)) = (N * Z.to_nat T)%nat
  /\ (forall k g', epoch_events T g' k
                  = map (fun i => EAdvance (g' + Z.of_nat i)) (seq 0 (Z.to_nat T))
                    ++ [EUpdateConnections k]).
Proof.
  intros T N Hg Hlt. split; [|split; [|split; [|split]]].
  - rewrite simulate_replay by assumption. cbn [network].
    now rewrite replay_trace.
  - now apply simulate_terminates.
  - apply update_steps_epochs.
  - rewrite advance_ticks_epochs by apply ticksPerEpoch_range.
    now rewrite length_map, length_seq.
  - reflexivity.
Qed.

Lemma simulate_epoch_structure_witness :
  network (simulate tiny_info (mkWorld 0 ([] : Trace)))
  = [ESetup 1%Q 2; EAdvance 0; EAdvance 1; EAdvance 2; EUpdateConnections 1;
     EAdvance 3; EAdvance 4; EAdvance 5; EUpdateConnections 2; EFinish 1%Q 2].
Proof.
  destruct (simulate_epoch_structure tiny_info 0 []) as [Hlog _].
  - lia.
  - vm_compute. reflexivity.
  - exact Hlog.
Defined.

(** C2.  In a run started at tick 0 the scheduler arrives at the start of
    epoch k (1-based) with the tick counter at (k - 1) * ticksPerEpoch, and
    the ticks seen by the successive [advance] calls are 0, 1, 2, ...
    without gap or repetition: the counter moves by exactly one per network
    advance, across epoch boundaries too.  The tick counter is a
    [uint64_t]: the statement is for runs that do not take it past 2^64. *)
Theorem tick_grid (si : SimulationInfo) (k : Z) (log : Trace) :
  let T := ticksPerEpoch si in
  let at_start := after_epochs si (Z.to_nat (k - 1)) (mkWorld 0 log) in
  maxSteps si * T < UINT64_MOD ->
  1 <= k <= maxSteps si ->
  sched_steps si (Idle (mkWorld 0 log)) (EpochHead k at_start)
  /\ g_simulationStep at_start = (k - 1) * T
  /\ advance_ticks (network (simulate si (mkWorld 0 log)))
     = advance_ticks log
       ++ map Z.of_nat (seq 0 (Z.to_nat (maxSteps si * T))).
Proof.
  intros T at_start Hlt Hk.
  pose proof (ticksPerEpoch_range si) as HT. fold T in HT.
  split; [|split].
  - replace k with (1 + Z.of_nat (Z.to_nat (k - 1))) at 1
      by (rewrite Z2Nat.id; lia).
    apply after_epochs_reached; cbn [g_simulationStep];
      rewrite ?Z2Nat.id; lia.
  - unfold at_start, after_epochs, simulate_setup.
    cbn [g_simulationStep network].
    rewrite simulate_loop_replay; cbn [g_simulationStep]; fold T.
    + rewrite Z2Nat.id by lia. lia.
    + lia.
    + rewrite Z2Nat.id by lia. nia.
    + intros _. rewrite Z2Nat.id by lia. lia.
  - rewrite simulate_replay; fold T.
    + cbn [network]. rewrite replay_trace.
      rewrite !advance_ticks_app, advance_ticks_epochs by lia.
      cbn [advance_ticks flat_map app]. rewrite app_nil_r.
      f_equal. rewrite Z2Nat.inj_mul by lia. reflexivity.
    + lia.
    + rewrite Z2Nat.id by lia. lia.
Qed.

Lemma tick_grid_witness :
  g_simulationStep (after_epochs tiny_info (Z.to_nat (2 - 1))
                      (mkWorld 0 ([] : Trace))) = (2 - 1) * 3
  /\ advance_ticks (network (simulate tiny_info (mkWorld 0 ([] : Trace))))
     = [0; 1; 2; 3; 4; 5].
Proof.
  destruct (tick_grid tiny_info 2 []) as (_ & Hstart & Hticks).
  - vm_compute. reflexivity.
  - cbn. lia.
  - split; [exact Hstart | exact Hticks].
Defined.

(** ** Ticks per epoch *)

Lemma static_cast_uint64_floor (x : BGFLOAT) :
  (0 <= x)%Q -> Qfloor x < UINT64_MOD ->
  static_cast_uint64 x = Qfloor x.
Proof.
  destruct x as [n d]. intros Hx Hlt.
  unfold static_cast_uint64. cbn [Qnum Qden Qfloor] in *.
  assert (Hn : 0 <= n).
  { unfold Qle in Hx. cbn in Hx. lia. }
  rewrite Z.quot_div_nonneg by (try assumption; reflexivity).
  apply wrap64_small. split; [|exact Hlt].
  apply Z.div_pos; [exact Hn | reflexivity].
Qed.

Lemma Qfloor_nonneg (x : Q) : (0 <= x)%Q -> 0 <= Qfloor x.
Proof.
  intros Hx. change 0 with (Qfloor 0). now apply Qfloor_resp_le.
Qed.

Lemma floor_lt_of_fractional (x : Q) :
  ~ integral x -> (inject_Z (Qfloor x) < x)%Q.
Proof.
  intros Hni. destruct (proj1 (Qle_lteq _ _) (Qfloor_le x)) as [Hlt|Heq].
  - exact Hlt.
  - now elim Hni.
Qed.




(** ** The scheduler in a binary format *)

Section MachineFormat.

Context {Net Image : Type} `{NetworkOps Net Image}.
Variables prec emax : Z.
Variable si : IEEE.SimulationInfo.

Let T := IEEE.ticksPerEpoch prec emax si.

Lemma IEEE_ticksPerEpoch_range : 0 <= T < UINT64_MOD.
Proof. unfold T, IEEE.ticksPerEpoch, static_cast_uint64. apply wrap64_range. Qed.

Lemma IEEE_growthCycle_replay (k g : Z) (net : Net) :
  0 <= g -> g + T < UINT64_MOD ->
  IEEE.growthCycle prec emax si k (mkWorld g net)
  = mkWorld (g + T) (replay (epoch_events T g k) net).
Proof.
  intros Hg Hlt. pose proof IEEE_ticksPerEpoch_range as HT.
  unfold IEEE.growthCycle, IEEE.advanceUntilGrowth. cbn [g_simulationStep].
  fold T. rewrite wrap64_small by lia.
  replace (g + T - g) with T by lia.
  pose proof (advance_loop_replay (exact_info si) (Z.to_nat T) g net Hg)
    as Hloop.
  rewrite Z2Nat.id in Hloop by lia. rewrite Hloop by lia.
  cbn [g_simulationStep network]. unfold epoch_events.
  rewrite replay_app. reflexivity.
Qed.

Lemma IEEE_simulate_loop_replay (n : nat) : forall (k g : Z) (net : Net),
  0 <= g -> g + Z.of_nat n * T < UINT64_MOD ->
  (n <> O -> k + Z.of_nat n - 1 <= IEEE.maxSteps si) ->
  IEEE.simulate_loop prec emax si n k (mkWorld g net)
  = mkWorld (g + Z.of_nat n * T) (replay (epochs_events T n k g) net).
Proof.
  pose proof IEEE_ticksPerEpoch_range as HT.
  induction n as [|n IH]; intros k g net Hg Hlt Hk.
  - cbn. now rewrite Z.add_0_r.
  - cbn [IEEE.simulate_loop].
    destruct (Z.leb_spec k (IEEE.maxSteps si)) as [_|Hgt]; [|lia].
    rewrite IEEE_growthCycle_replay by nia.
    rewrite IH by (try nia; intros; lia).
    cbn [epochs_events]. rewrite replay_app.
    f_equal. lia.
Qed.

(** A run whose tick counter stays below 2^64 makes the calls of maxSteps
    epochs of [T] ticks each. *)
Lemma IEEE_simulate_replay (g : Z) (net : Net) :
  let N := Z.to_nat (IEEE.maxSteps si) in
  0 <= g -> g + Z.of_nat N * T < UINT64_MOD ->
  IEEE.simulate prec emax si (mkWorld g net)
  = mkWorld (g + Z.of_nat N * T)
      (replay ([ESetup (IEEE.value (IEEE.epochDuration si)) (IEEE.maxSteps si)]
               ++ epochs_events T N 1 g
               ++ [EFinish (IEEE.value (IEEE.epochDuration si))
                     (IEEE.maxSteps si)]) net).
Proof.
  intros N Hg Hlt. unfold IEEE.simulate, IEEE.simulate_setup.
  cbn [g_simulationStep network]. fold N.
  rewrite IEEE_simulate_loop_replay by (subst N; try lia; intros; lia).
  cbn [g_simulationStep network].
  rewrite !replay_app. reflexivity.
Qed.

Lemma IEEE_simulate_counter (g : Z) (net : Net) :
  0 <= g -> g + Z.of_nat (Z.to_nat (IEEE.maxSteps si)) * T < UINT64_MOD ->
  g_simulationStep (IEEE.simulate prec emax si (mkWorld g net))
  = g + Z.of_nat (Z.to_nat (IEEE.maxSteps si)) * T.
Proof.
  intros Hg Hlt. now rewrite IEEE_simulate_replay.
Qed.

Lemma IEEE_simulate_loop_exact (n : nat) : forall (k : Z) (w : World Net),
  T = ticksPerEpoch (exact_info si) ->
  IEEE.simulate_loop prec emax si n k w = simulate_loop (exact_info si) n k w.
Proof.
  induction n as [|n IH]; intros k w HT; [reflexivity|].
  cbn [IEEE.simulate_loop simulate_loop maxSteps exact_info].
  destruct (k <=? IEEE.maxSteps si); [|reflexivity].
  rewrite IH by exact HT. f_equal.
  unfold IEEE.growthCycle, growthCycle, IEEE.advanceUntilGrowth,
    advanceUntilGrowth.
  fold T. now rewrite HT.
Qed.

(** When the rounded quotient and the exact one have the same integer part,
    the run in the format is the run with exact arithmetic. *)
Lemma IEEE_simulate_exact (w : World Net) :
  T = ticksPerEpoch (exact_info si) ->
  IEEE.simulate prec emax si w = simulate (exact_info si) w.
Proof.
  intros HT. unfold IEEE.simulate, simulate, after_epochs, IEEE.simulate_setup,
    simulate_setup.
  now rewrite IEEE_simulate_loop_exact.
Qed.

End MachineFormat.

(** C10 (as amended).  After an uninterrupted run started at tick 0 the
    tick counter is maxSteps times the integer part of the quotient
    epochDuration / deltaT as the format rounds it, and the state file
    holds, in its [simulationEndTime] matrix, the product of that counter
    and deltaT as the format rounds it.  The tick count of an epoch is
    truncated and nothing checks it.  The statement is for a run of zero or
    more epochs whose tick counter stays below 2^64. *)
Theorem reported_end_time_rounded {Net Image : Type} `{NetworkOps Net Image}
    (prec emax : Z) (si : IEEE.SimulationInfo) (net : Net) :
  let T := static_cast_uint64
             (IEEE.value (SFdiv prec emax (IEEE.epochDuration si)
                            (IEEE.deltaT si))) in
  let w := IEEE.simulate prec emax si (mkWorld 0 net) in
  0 <= IEEE.maxSteps si ->
  IEEE.maxSteps si * T < UINT64_MOD ->
  g_simulationStep w = IEEE.maxSteps si * T
  /\ exists before,
       IEEE.saveState prec emax si w
       = before
         ++ [ TStr (matrix_open "simulationEndTime"); TEndl;
              TStr "   ";
              TFloat (IEEE.value
                        (SFmul prec emax
                           (IEEE.of_uint64 prec emax (IEEE.maxSteps si * T))
                           (IEEE.deltaT si)));
              TEndl;
              TStr "</Matrix>"; TEndl;
              TStr "</SimState>"; TEndl ].
Proof.
  intros T w Hm Hlt.
  assert (Hg : g_simulationStep w = IEEE.maxSteps si * T).
  { unfold w. rewrite IEEE_simulate_counter
      by (rewrite ?Z2Nat.id; unfold IEEE.ticksPerEpoch; fold T; lia).
    rewrite Z2Nat.id by lia. reflexivity. }
  split; [exact Hg|].
  unfold IEEE.saveState, IEEE.simulationEndTime. rewrite Hg.
  exists ([ TStr ("<?xml version=" ++ dq ++ "1.0" ++ dq ++ " standalone=" ++ dq
                  ++ "no" ++ dq ++ "?>")%string; TEndl;
            TStr "<!-- State output file for the DCT growth modeling-->"; TEndl;
            TStr "<SimState>"; TEndl ]
          ++ net_saveState (network w)
          ++ [ TStr (matrix_open "Tsim"); TEndl;
               TStr "   "; TFloat (IEEE.value (IEEE.epochDuration si)); TEndl;
               TStr "</Matrix>"; TEndl ]).
  rewrite <- !app_assoc. reflexivity.
Qed.

(** C10 (as stated) fails.  In the run of the validation file, one epoch of
    1.0 s at the time step 0.0001 s, the quotient of the two numbers is not
    an integer, in [float] and in [double] alike; the run has 10000 ticks
    and the end time it reports is 1.0 s, the whole of maxSteps *
    epochDuration and not less.  In [double] the integer part of the exact
    quotient is 9999, not the 10000 ticks of the run.  And the rounded
    quotient need not be an integer either: in [float], for an epoch of
    8388614 * 2^-23 s at the time step 11184818 * 2^-25 s, it is
    12582913 * 2^-22, the run has 3 ticks, and the end time it reports is
    the epoch's duration. *)
Lemma reported_end_time_not_below :
  (~ integral (exact_ratio (validation_info 24 128))
   /\ g_simulationStep
        (IEEE.simulate 24 128 (validation_info 24 128) (mkWorld 0 ([] : Trace)))
      = 10000
   /\ (reported_time 24 128 (validation_info 24 128)
       == total_time (validation_info 24 128))%Q
   /\ ~ (reported_time 24 128 (validation_info 24 128)
         < total_time (validation_info 24 128))%Q)
  /\ (~ integral (exact_ratio (validation_info 53 1024))
      /\ Qfloor (exact_ratio (validation_info 53 1024)) = 9999
      /\ g_simulationStep
           (IEEE.simulate 53 1024 (validation_info 53 1024)
              (mkWorld 0 ([] : Trace)))
         = 10000
      /\ (reported_time 53 1024 (validation_info 53 1024)
          == total_time (validation_info 53 1024))%Q
      /\ ~ (reported_time 53 1024 (validation_info 53 1024)
            < total_time (validation_info 53 1024))%Q)
  /\ (~ integral (exact_ratio third_info)
      /\ ~ integral
             (IEEE.value (SFdiv 24 128 (IEEE.epochDuration third_info)
                            (IEEE.deltaT third_info)))
      /\ g_simulationStep
           (IEEE.simulate 24 128 third_info (mkWorld 0 ([] : Trace)))
         = 3
      /\ (reported_time 24 128 third_info == total_time third_info)%Q
      /\ ~ (reported_time 24 128 third_info < total_time third_info)%Q).
Proof.
  unfold reported_time, IEEE.simulationEndTime.
  rewrite !IEEE_simulate_counter
    by (vm_compute; first [discriminate | reflexivity]).
  split; [|split].
  - split; [unfold integral; vm_compute; discriminate|].
    split; [vm_compute; reflexivity|].
    split; [vm_compute; reflexivity | vm_compute; discriminate].
  - split; [unfold integral; vm_compute; discriminate|].
    split; [vm_compute; reflexivity|].
    split; [vm_compute; reflexivity|].
    split; [vm_compute; reflexivity | vm_compute; discriminate].
  - split; [unfold integral; vm_compute; discriminate|].
    split; [unfold integral; vm_compute; discriminate|].
    split; [vm_compute; reflexivity|].
    split; [vm_compute; reflexivity | vm_compute; discriminate].
Qed.

Lemma reported_end_time_rounded_witness :
  g_simulationStep
    (IEEE.simulate 24 128 (validation_info 24 128) (mkWorld 0 ([] : Trace)))
  = 1 * 10000
  /\ exists before,
       IEEE.saveState 24 128 (validation_info 24 128)
         (IEEE.simulate 24 128 (validation_info 24 128)
            (mkWorld 0 ([] : Trace)))
       = before
         ++ [ TStr (matrix_open "simulationEndTime"); TEndl;
              TStr "   "; TFloat (8388608 # 8388608)%Q; TEndl;
              TStr "</Matrix>"; TEndl;
              TStr "</SimState>"; TEndl ].
Proof.
  apply (reported_end_time_rounded 24 128 (validation_info 24 128)
           ([] : Trace)).
  - vm_compute. discriminate.
  - vm_compute. reflexivity.
Defined.

(** ** The parameter loader *)

Section DriverProperties.

Context {Net Image : Type} `{NetworkOps Net Image}.
Variable Model : Type.
Variable new_LIFSingleThreadedModel : Model.
Variable readParameters : TiXmlElement -> Model -> Outcome bool * Model.
Variable new_Network : Model -> SimulationInfo -> Net.
Variable DEFAULT_dt : BGFLOAT.
Variable scan_int : string -> option Z.
Variable scan_FLOAT : string -> option BGFLOAT.
Variable scan_long : string -> option Z.
Variable scan_string : string -> option string.
Variable cl_addParam_ok : bool.
Variable cl_parseCommandLine : list string -> option (string -> string).
Variable files : Driver.Files (Image := Image).

Local Abbreviation LoadSimParms :=
  (Driver.LoadSimParms Model scan_int scan_FLOAT scan_long scan_string).
Local Abbreviation required_fields_ok :=
  (Driver.required_fields_ok scan_int scan_FLOAT scan_long scan_string).
Local Abbreviation load_simulation_parameters :=
  (Driver.load_simulation_parameters Model readParameters scan_int
     scan_FLOAT scan_long scan_string files).
Local Abbreviation parseCommandLine :=
  (Driver.parseCommandLine Model cl_addParam_ok cl_parseCommandLine).
Local Abbreviation main :=
  (Driver.main Model new_LIFSingleThreadedModel readParameters new_Network
     DEFAULT_dt scan_int scan_FLOAT scan_long scan_string cl_addParam_ok
     cl_parseCommandLine files).

Lemma query_or_flag_fst {A : Type} (q : QueryResult A)
    (assign : A -> Driver.Globals Model -> Driver.Globals Model)
    (name : string) (fSet : bool) (g : Driver.Globals Model) :
  fst (Driver.query_or_flag Model q assign name fSet g)
  = fSet && succeeded q.
Proof.
  destruct q; cbn; now rewrite ?andb_true_r, ?andb_false_r.
Qed.

Lemma succeeded_query {A : Type} (scan : string -> option A)
    (element attribute : string) (parms temp : TiXmlElement) :
  FirstChildElement element (children parms) = Some temp ->
  succeeded (QueryAttribute scan attribute temp)
  = Driver.field_ok scan element attribute parms.
Proof.
  intros Hfind. unfold Driver.field_ok, QueryAttribute. rewrite Hfind.
  destruct (Attribute attribute temp) as [text|]; [|reflexivity].
  now destruct (scan text).
Qed.

Lemma field_missing {A : Type} (scan : string -> option A)
    (element attribute : string) (parms : TiXmlElement) :
  FirstChildElement element (children parms) = None ->
  Driver.field_ok scan element attribute parms = false.
Proof. intros Hfind. unfold Driver.field_ok. now rewrite Hfind. Qed.

(** One [Query] of [LoadSimParms] whose assignment leaves [cerr] alone:
    the flag it returns and the line it sends to [cerr]. *)
Lemma query_or_flag_spec {A : Type} (scan : string -> option A)
    (attribute : string) (temp : TiXmlElement)
    (assign : A -> Driver.Globals Model -> Driver.Globals Model)
    (fSet : bool) (g : Driver.Globals Model) :
  (forall v g0, Driver.cerr (assign v g0) = Driver.cerr g0) ->
  exists g',
    Driver.query_or_flag Model (QueryAttribute scan attribute temp) assign
      attribute fSet g
    = (fSet && succeeded (QueryAttribute scan attribute temp), g')
    /\ Driver.cerr g'
       = Driver.cerr g ++ Driver.attribute_report scan attribute temp.
Proof.
  intros Hassign. unfold Driver.attribute_report.
  destruct (QueryAttribute scan attribute temp) as [v| |]; cbn;
    eexists; (split; [rewrite ?andb_true_r, ?andb_false_r; reflexivity|]);
    cbn; rewrite ?Hassign, ?app_nil_r; reflexivity.
Qed.

(** One [Query] of [LoadSimParms]: name the state it leaves and compute
    the flag it returns. *)
Ltac run_query :=
  match goal with
  | |- context [Driver.query_or_flag Model ?q ?a ?n ?b ?g] =>
      let E := fresh "E" in
      let b' := fresh "fSet" in
      let g' := fresh "g" in
      destruct (Driver.query_or_flag Model q a n b g) as [b' g'] eqn:E;
      apply (f_equal fst) in E; rewrite query_or_flag_fst in E;
      cbn [fst] in E; subst b'
  end.

(** [LoadSimParms] throws exactly when some required field is not in
    order, and then throws the one exception with the summary message. *)
Lemma LoadSimParms_outcome (parms : TiXmlElement) (g : Driver.Globals Model) :
  fst (LoadSimParms parms g)
  = if required_fields_ok parms then Returned tt
    else Thrown Driver.KII_message.
Proof.
  unfold Driver.LoadSimParms, Driver.required_fields_ok, Driver.bind.
  destruct (FirstChildElement "PoolSize" (children parms)) as [e1|] eqn:E1;
  destruct (FirstChildElement "SimParams" (children parms)) as [e2|] eqn:E2;
  destruct (FirstChildElement "OutputParams" (children parms)) as [e3|] eqn:E3;
  destruct (FirstChildElement "Seed" (children parms)) as [e4|] eqn:E4;
  unfold Driver.cerr_endl, Driver.modify, Driver.ret;
  repeat run_query;
  rewrite ?(succeeded_query _ _ _ _ _ E1), ?(succeeded_query _ _ _ _ _ E2),
    ?(succeeded_query _ _ _ _ _ E3), ?(succeeded_query _ _ _ _ _ E4);
  rewrite ?(field_missing _ _ _ _ E1), ?(field_missing _ _ _ _ E2),
    ?(field_missing _ _ _ _ E3), ?(field_missing _ _ _ _ E4);
  rewrite ?andb_true_l, ?andb_false_r, ?andb_false_l; cbn [negb fst];
  try reflexivity;
  match goal with
  | |- context [negb ?b] => destruct b; reflexivity
  end.
Qed.

Lemma load_fails (name : string) (doc : list TiXmlElement)
    (parms : TiXmlElement) (g : Driver.Globals Model) :
  Driver.xml_file files name = Some doc ->
  FirstChildElement "SimParams" doc = Some parms ->
  required_fields_ok parms = false ->
  fst (load_simulation_parameters name g) = false.
Proof.
  intros Hfile Hroot Hbad. unfold Driver.load_simulation_parameters.
  rewrite Hfile, Hroot. unfold Driver.bind.
  pose proof (LoadSimParms_outcome parms g) as Hout.
  rewrite Hbad in Hout.
  destruct (LoadSimParms parms g) as [r g']. cbn [fst] in Hout. subst r.
  reflexivity.
Qed.

Lemma load_succeeds (name : string) (doc : list TiXmlElement)
    (parms : TiXmlElement) (g : Driver.Globals Model) :
  Driver.xml_file files name = Some doc ->
  FirstChildElement "SimParams" doc = Some parms ->
  required_fields_ok parms = true ->
  (forall m, exists b m', readParameters parms m = (Returned b, m')) ->
  fst (load_simulation_parameters name g) = true.
Proof.
  intros Hfile Hroot Hok Hmodel. unfold Driver.load_simulation_parameters.
  rewrite Hfile, Hroot. unfold Driver.bind.
  pose proof (LoadSimParms_outcome parms g) as Hout.
  rewrite Hok in Hout.
  destruct (LoadSimParms parms g) as [r g']. cbn [fst] in Hout. subst r.
  destruct (Hmodel (Driver.model Model g')) as (b & m' & Hread).
  rewrite Hread. reflexivity.
Qed.

(** The [bool] that [readParameters] returns is dropped: when the fields of
    [LoadSimParms] are in order and the model object returns [false]
    without throwing, the load still succeeds. *)
Lemma load_ignores_model_flag (name : string) (doc : list TiXmlElement)
    (parms : TiXmlElement) (g : Driver.Globals Model) :
  Driver.xml_file files name = Some doc ->
  FirstChildElement "SimParams" doc = Some parms ->
  required_fields_ok parms = true ->
  (forall m, exists m', readParameters parms m = (Returned false, m')) ->
  fst (load_simulation_parameters name g) = true.
Proof.
  intros Hfile Hroot Hok Hmodel.
  apply (load_succeeds name doc parms g Hfile Hroot Hok).
  intros m. destruct (Hmodel m) as (m' & Hread). now exists false, m'.
Qed.

Ltac run_query_logged :=
  match goal with
  | |- context [Driver.query_or_flag Model (QueryAttribute ?scan ?n ?e) ?a ?n ?b ?g] =>
      let g' := fresh "g" in
      let E := fresh "E" in
      let L := fresh "L" in
      destruct (query_or_flag_spec scan n e a b g ltac:(reflexivity))
        as (g' & E & L);
      rewrite E; clear E
  end.

(** [LoadSimParms] goes through all the fields, whatever it finds: [cerr]
    receives the line of every field at fault, not only of the first. *)
Lemma LoadSimParms_cerr (parms : TiXmlElement) (g : Driver.Globals Model) :
  Driver.cerr (snd (LoadSimParms parms g))
  = Driver.cerr g
    ++ Driver.reports scan_int scan_FLOAT scan_long scan_string parms.
Proof.
  unfold Driver.LoadSimParms, Driver.reports, Driver.element_report,
    Driver.bind.
  destruct (FirstChildElement "PoolSize" (children parms)) as [e1|];
  destruct (FirstChildElement "SimParams" (children parms)) as [e2|];
  destruct (FirstChildElement "OutputParams" (children parms)) as [e3|];
  destruct (FirstChildElement "Seed" (children parms)) as [e4|];
  unfold Driver.cerr_endl, Driver.modify, Driver.ret;
  repeat run_query_logged;
  match goal with
  | |- context [negb ?b] => destruct b
  end;
  cbn [negb snd Driver.cerr Driver.set_cerr];
  repeat (match goal with
          | L : Driver.cerr _ = _ |- _ => rewrite L; clear L
          end;
          cbn [Driver.cerr Driver.set_cerr]);
  rewrite <- ?app_assoc; reflexivity.
Qed.

(** The nine fields that [LoadSimParms] reads.  When one of them is missing
    or does not convert, [LoadSimParms] throws one exception, with the
    summary message, whatever the number of fields at fault, after it has
    named every one of them on [cerr]; the load as a whole fails; and the
    program stops with status -1 before it builds a network or a simulator:
    nothing is simulated, and neither the state file nor a memory image is
    written. *)
Theorem load_fails_fast (argv : list string) (g1 : Driver.Globals Model)
    (doc : list TiXmlElement) (parms : TiXmlElement) :
  parseCommandLine argv
    (Driver.initial_globals Model new_LIFSingleThreadedModel) = (true, g1) ->
  Driver.xml_file files (Driver.stateInputFileName g1) = Some doc ->
  FirstChildElement "SimParams" doc = Some parms ->
  required_fields_ok parms = false ->
  (forall g, fst (LoadSimParms parms g) = Thrown Driver.KII_message)
  /\ (forall g, Driver.cerr (snd (LoadSimParms parms g))
                = Driver.cerr g
                  ++ Driver.reports scan_int scan_FLOAT scan_long scan_string
                       parms)
  /\ fst (load_simulation_parameters (Driver.stateInputFileName g1) g1)
     = false
  /\ Driver.exit_status (main argv) = -1
  /\ Driver.world (main argv) = None
  /\ Driver.state_out (main argv) = None
  /\ Driver.memory_out (main argv) = None.
Proof.
  intros Hcl Hfile Hroot Hbad.
  pose proof (load_fails _ _ _ g1 Hfile Hroot Hbad) as Hload.
  split.
  { intros g. now rewrite LoadSimParms_outcome, Hbad. }
  split; [exact (LoadSimParms_cerr parms)|].
  split; [exact Hload|].
  unfold Driver.main. rewrite Hcl. cbn [negb].
  destruct (load_simulation_parameters (Driver.stateInputFileName g1) g1)
    as [ok g2].
  cbn [fst] in Hload. subst ok. cbn. auto.
Qed.

End DriverProperties.

Lemma load_fails_fast_witness :
  Driver.exit_status (sample_main broken_xml) = -1
  /\ Driver.world (sample_main broken_xml) = None.
Proof.
  destruct (load_fails_fast (Net := Trace) unit tt
              (fun _ m => (Returned true, m)) (fun _ _ => ([] : Trace))
              (1 # 10000)%Q sample_scan_int sample_scan_FLOAT sample_scan_int
              sample_scan_string true (fun _ => Some sample_cl)
              (sample_files broken_xml) ["growth"; "-t"; "tiny.xml"]
              (Driver.set_fReadMemImage unit false
                 (Driver.set_stateInputFileName unit "tiny.xml"
                    (Driver.initial_globals unit tt)))
              [broken_xml] broken_xml)
    as (_ & _ & _ & Hexit & Hworld & _).
  - vm_compute. reflexivity.
  - vm_compute. reflexivity.
  - vm_compute. reflexivity.
  - vm_compute. reflexivity.
  - split; [exact Hexit | exact Hworld].
Defined.

(** On the broken parameter file both faults are named before the
    exception is thrown. *)
Example broken_xml_reports :
  Driver.cerr (Driver.globals (sample_main broken_xml))
  = ["error z"; "error value";
     ("Failure loading simulation parameters from file tiny.xml:"
      ++ nl_tab ++ Driver.KII_message)%string;
     "! ERROR: failed while parsing simulation parameters."].
Proof. vm_compute. reflexivity. Qed.

(** C6.  The fields that the model object reads are not protected in the
    same way.  [load_simulation_parameters] drops the value that
    [readParameters] returns, so a model object that reports failure by
    returning [false] does not fail the load: on a parameter file whose
    nine driver fields are in order the program writes nothing to [cerr],
    builds the network, runs its epoch of three ticks, writes the state
    file and ends with status 0. *)
Theorem model_failure_does_not_stop_the_run :
  Driver.exit_status (sample_main_model_fails tiny_xml) = 0
  /\ Driver.cerr (Driver.globals (sample_main_model_fails tiny_xml)) = []
  /\ option_map network (Driver.world (sample_main_model_fails tiny_xml))
     = Some [ESetup (3 # 10000)%Q 1; EAdvance 0; EAdvance 1; EAdvance 2;
             EUpdateConnections 1; EFinish (3 # 10000)%Q 1]
  /\ Driver.state_out (sample_main_model_fails tiny_xml) <> None
  /\ sample_main_model_fails tiny_xml = sample_main tiny_xml.
Proof.
  repeat split; try (vm_compute; reflexivity). vm_compute. discriminate.
Qed.

(** The same program on the complete parameter file runs its one epoch of
    three ticks and writes the state file. *)
Example sample_main_runs :
  Driver.exit_status (sample_main tiny_xml) = 0
  /\ option_map network (Driver.world (sample_main tiny_xml))
     = Some [ESetup (3 # 10000)%Q 1; EAdvance 0; EAdvance 1; EAdvance 2;
             EUpdateConnections 1; EFinish (3 # 10000)%Q 1].
Proof. vm_compute. split; reflexivity. Qed.

(** ** The growth engine *)

Section GrowthProperties.

Variable Dyn : Type.
Variable advanceDyn : Z -> Dyn -> Dyn * list bool.
Variable rewire : list BGFLOAT -> Dyn -> Dyn.
Variable exp : BGFLOAT -> BGFLOAT.
Variable m_growth : GrowthParams.
Variable si : SimulationInfo.

Local Abbreviation ops :=
  (Growth.GrowthNetwork Dyn advanceDyn rewire exp m_growth si).
Local Abbreviation GNet := (Growth.Net Dyn).
Local Abbreviation conns_of w := (Growth.conns Dyn (network w)).

Lemma new_radius_ge (radius delta : BGFLOAT) :
  (minRadius m_growth <= Growth.new_radius m_growth radius delta)%Q.
Proof. unfold Growth.new_radius. apply Q.le_max_l. Qed.

Lemma update_radii_ge (rs ds : list BGFLOAT) :
  Forall (fun r => (minRadius m_growth <= r)%Q)
    (Growth.update_radii m_growth rs ds).
Proof.
  unfold Growth.update_radii. apply Forall_forall. intros r Hin.
  apply in_map_iff in Hin. destruct Hin as (rd & <- & _).
  apply new_radius_ge.
Qed.

Lemma grow_radii_ge (c : Connections) :
  Forall (fun r => (minRadius m_growth <= r)%Q)
    (radii (Growth.grow exp m_growth si c)).
Proof. cbn. apply update_radii_ge. Qed.

(** A tick leaves radii and histories alone. *)
Lemma advance_loop_growth_state (n : nat) : forall (e : Z) (w : World GNet),
  let w' := @advance_loop _ _ ops n e w in
  radii (conns_of w') = radii (conns_of w)
  /\ radiiHistory (conns_of w') = radiiHistory (conns_of w)
  /\ ratesHistory (conns_of w') = ratesHistory (conns_of w).
Proof.
  induction n as [|n IH]; intros e w; cbn zeta; [auto|].
  cbn [advance_loop].
  destruct (g_simulationStep w <? e); [|auto].
  specialize (IH e {| g_simulationStep := wrap64 (g_simulationStep w + 1);
                      network := @advance _ _ ops (g_simulationStep w)
                                   (network w) |}).
  cbn zeta in IH. destruct IH as (Hr & Hrh & Hth).
  rewrite Hr, Hrh, Hth. cbn [network advance ops Growth.GrowthNetwork].
  destruct (advanceDyn (g_simulationStep w) (Growth.dyn Dyn (network w))).
  cbn. auto.
Qed.

(** A growth cycle gives each history one new row, the radii and rates
    just computed, and raises every radius to [minRadius] at least. *)
Lemma growthCycle_growth_state (k : Z) (w : World GNet) :
  let w' := @growthCycle _ _ ops si k w in
  radiiHistory (conns_of w')
  = radiiHistory (conns_of w) ++ [radii (conns_of w')]
  /\ ratesHistory (conns_of w')
     = ratesHistory (conns_of w) ++ [rates (conns_of w')]
  /\ Forall (fun r => (minRadius m_growth <= r)%Q) (radii (conns_of w')).
Proof.
  cbn zeta. unfold growthCycle, advanceUntilGrowth.
  set (e := wrap64 (g_simulationStep w + ticksPerEpoch si)).
  set (n := Z.to_nat (e - g_simulationStep w)).
  destruct (advance_loop_growth_state n e w) as (Hr & Hrh & Hth).
  cbn zeta in Hr, Hrh, Hth.
  cbn [network updateConnections ops Growth.GrowthNetwork Growth.conns
       Growth.grow radiiHistory ratesHistory radii rates].
  rewrite Hrh, Hth, Hr. repeat split. apply update_radii_ge.
Qed.

End GrowthProperties.

Section GrowthRuns.

Variable Dyn : Type.
Variable advanceDyn : Z -> Dyn -> Dyn * list bool.
Variable rewire : list BGFLOAT -> Dyn -> Dyn.
Variable exp : BGFLOAT -> BGFLOAT.
Variable m_growth : GrowthParams.
Variable si : SimulationInfo.

Local Abbreviation ops :=
  (Growth.GrowthNetwork Dyn advanceDyn rewire exp m_growth si).
Local Abbreviation GNet := (Growth.Net Dyn).
Local Abbreviation conns_of w := (Growth.conns Dyn (network w)).
Local Abbreviation after n w := (@after_epochs _ _ ops si n w).

(** Between two epoch boundaries of a run each history only gains rows,
    one per epoch. *)
Lemma histories_grow (n m : nat) (w : World GNet) :
  (n <= m)%nat -> (m <= Z.to_nat (maxSteps si))%nat ->
  exists new_radii new_rates,
    radiiHistory (conns_of (after m w))
    = radiiHistory (conns_of (after n w)) ++ new_radii
    /\ ratesHistory (conns_of (after m w))
       = ratesHistory (conns_of (after n w)) ++ new_rates
    /\ List.length new_radii = (m - n)%nat
    /\ List.length new_rates = (m - n)%nat.
Proof.
  intros Hnm. induction Hnm as [|m Hnm IH]; intros Hm.
  - exists [], []. rewrite !app_nil_r, Nat.sub_diag. auto.
  - destruct IH as (rr & rt & Hr & Ht & Hlr & Hlt); [lia|].
    rewrite (@after_epochs_S _ _ ops) by lia.
    destruct (growthCycle_growth_state Dyn advanceDyn rewire exp m_growth si
                (1 + Z.of_nat m) (after m w)) as (Hr' & Ht' & _).
    cbn zeta in Hr', Ht'. rewrite Hr', Ht', Hr, Ht, <- !app_assoc.
    eexists _, _. repeat split.
    + rewrite length_app, Hlr. cbn [List.length]. lia.
    + rewrite length_app, Hlt. cbn [List.length]. lia.
Qed.

End GrowthRuns.

(** C7.  After the growth update of any epoch of a run every radius is at
    least [minRadius], and so is every entry of the row of the radius
    history written by that update: the update stores
    max(minRadius, radius + deltaR), which is at least [minRadius] however
    negative deltaR is. *)
Theorem radius_never_below_minimum (Dyn : Type)
    (advanceDyn : Z -> Dyn -> Dyn * list bool)
    (rewire : list BGFLOAT -> Dyn -> Dyn) (exp : BGFLOAT -> BGFLOAT)
    (m_growth : GrowthParams) (si : SimulationInfo)
    (k : nat) (w : World (Growth.Net Dyn)) :
  let ops := Growth.GrowthNetwork Dyn advanceDyn rewire exp m_growth si in
  let c := Growth.conns Dyn (network (@after_epochs _ _ ops si k w)) in
  (1 <= k)%nat -> Z.of_nat k <= maxSteps si ->
  Forall (fun r => (minRadius m_growth <= r)%Q) (radii c)
  /\ last (radiiHistory c) [] = radii c
  /\ (forall radius delta : BGFLOAT,
        (minRadius m_growth <= Growth.new_radius m_growth radius delta)%Q).
Proof.
  intros ops c Hk1 HkN. destruct k as [|k]; [lia|].
  subst c. rewrite (@after_epochs_S _ _ ops) by lia.
  destruct (growthCycle_growth_state Dyn advanceDyn rewire exp m_growth si
              (1 + Z.of_nat k) (@after_epochs _ _ ops si k w))
    as (Hr & _ & Hge).
  cbn zeta in Hr, Hge. repeat split.
  - exact Hge.
  - fold ops in Hr. rewrite Hr. apply last_last.
  - apply new_radius_ge.
Qed.

Lemma radius_never_below_minimum_witness :
  Forall (fun r => (1 # 10 <= r)%Q)
    (radii (Growth.conns unit
              (network (@after_epochs _ _ sample_network tiny_info 2 sample_world)))).
Proof.
  apply (radius_never_below_minimum unit (fun _ d => (d, [true; false]))
           (fun _ d => d) (fun x => x) sample_growth tiny_info 2 sample_world).
  - lia.
  - vm_compute. discriminate.
Defined.

(** C8.  The radius and rate histories are append-only.  In a run of N
    epochs from a network that has no history yet, each history has
    exactly N rows at the end, and the history as it stands right after
    epoch k is the first k rows of the history at the end: no row is ever
    rewritten, removed or reordered after it has been written. *)
Theorem histories_append_only (Dyn : Type)
    (advanceDyn : Z -> Dyn -> Dyn * list bool)
    (rewire : list BGFLOAT -> Dyn -> Dyn) (exp : BGFLOAT -> BGFLOAT)
    (m_growth : GrowthParams) (si : SimulationInfo)
    (k : nat) (g : Z) (d : Dyn) (neuron_count : nat) :
  let ops := Growth.GrowthNetwork Dyn advanceDyn rewire exp m_growth si in
  let w := mkWorld g
             (Growth.mkNet Dyn d (Growth.fresh_connections m_growth neuron_count)) in
  let at_end := Growth.conns Dyn (network (@simulate _ _ ops si w)) in
  let after_k := Growth.conns Dyn (network (@after_epochs _ _ ops si k w)) in
  let N := Z.to_nat (maxSteps si) in
  (k <= N)%nat ->
  List.length (radiiHistory at_end) = N
  /\ List.length (ratesHistory at_end) = N
  /\ radiiHistory after_k = firstn k (radiiHistory at_end)
  /\ ratesHistory after_k = firstn k (ratesHistory at_end).
Proof.
  intros ops w at_end after_k N Hk.
  assert (H0 : forall m, (m <= N)%nat ->
            List.length (radiiHistory
              (Growth.conns Dyn (network (@after_epochs _ _ ops si m w)))) = m
            /\ List.length (ratesHistory
              (Growth.conns Dyn (network (@after_epochs _ _ ops si m w)))) = m).
  { intros m Hm.
    destruct (histories_grow Dyn advanceDyn rewire exp m_growth si 0 m w)
      as (rr & rt & Hr & Ht & Hlr & Hlt); [lia | exact Hm |].
    fold ops in Hr, Ht.
    change (@after_epochs _ _ ops si 0 w) with w in Hr, Ht.
    unfold w in Hr at 2. unfold w in Ht at 2.
    cbn [network Growth.conns Growth.fresh_connections radiiHistory
         ratesHistory app] in Hr, Ht.
    rewrite Hr, Ht, Hlr, Hlt. lia. }
  destruct (histories_grow Dyn advanceDyn rewire exp m_growth si k N w)
    as (rr & rt & Hr & Ht & _ & _); [exact Hk | apply Nat.le_refl |].
  fold ops in Hr, Ht.
  destruct (H0 N (Nat.le_refl N)) as (HlN & HlN').
  destruct (H0 k Hk) as (Hlk & Hlk').
  subst at_end after_k.
  change (Growth.conns Dyn (network (@simulate _ _ ops si w)))
    with (Growth.conns Dyn (network (@after_epochs _ _ ops si N w))).
  repeat split.
  - exact HlN.
  - exact HlN'.
  - rewrite Hr. rewrite <- Hlk at 2. now rewrite firstn_app, Nat.sub_diag,
      firstn_all, firstn_O, app_nil_r.
  - rewrite Ht. rewrite <- Hlk' at 2. now rewrite firstn_app, Nat.sub_diag,
      firstn_all, firstn_O, app_nil_r.
Qed.

Lemma histories_append_only_witness :
  radiiHistory (Growth.conns unit
    (network (@after_epochs _ _ sample_network tiny_info 1 sample_world)))
  = firstn 1 (radiiHistory (Growth.conns unit
      (network (@simulate _ _ sample_network tiny_info sample_world)))).
Proof.
  apply (histories_append_only unit (fun _ d => (d, [true; false]))
           (fun _ d => d) (fun x => x) sample_growth tiny_info 1 0 tt 2).
  vm_compute. lia.
Defined.

(** ** The synaptic delay queue *)

Section DelayQueueProperties.

Import DelayQueue.

Variable spikes : Z -> bool.
Variable delay : Z.
Variable t0 : Z.

Hypothesis delay_fits : 0 <= delay < LENGTH_OF_DELAYQUEUE.

Lemma length_is_32 : LENGTH_OF_DELAYQUEUE = 32.
Proof. reflexivity. Qed.

(** Two ticks less than a buffer width apart use different bits. *)
Lemma slot_injective (t a b : Z) :
  t <= a < t + 32 -> t <= b < t + 32 -> a mod 32 = b mod 32 -> a = b.
Proof.
  intros Ha Hb Hmod.
  pose proof (Z.div_mod a 32 ltac:(lia)) as Da.
  pose proof (Z.div_mod b 32 ltac:(lia)) as Db.
  rewrite Hmod in Da. lia.
Qed.

Lemma slot_range (a : Z) : 0 <= a mod 32 < 32.
Proof. apply Z.mod_pos_bound. lia. Qed.

Lemma testbit_slot (i j : Z) :
  0 <= j -> Z.testbit (Z.shiftl 1 j) i = (j =? i).
Proof. intros Hj. rewrite Z.shiftl_1_l. now apply Z.pow2_bits_eqb. Qed.

Local Abbreviation holds_pending :=
  (DelayQueue.holds_pending spikes delay t0).

Lemma empty_holds_pending : holds_pending t0 0.
Proof.
  intros u Hu. rewrite Z.bits_0.
  destruct (spikes (u - delay)); cbn; [|reflexivity].
  destruct (Z.leb_spec t0 (u - delay)), (Z.ltb_spec (u - delay) t0);
    cbn; try reflexivity; lia.
Qed.

(** The queue after the neuron pass of tick [t]. *)
Lemma notify_pending (t q : Z) :
  t0 <= t -> holds_pending t q ->
  forall u, t <= u < t + 32 ->
    Z.testbit
      (delayQueue (if spikes t then notify t (mkSynapse q delay)
                   else mkSynapse q delay))
      (u mod 32)
    = spikes (u - delay) && (t0 <=? u - delay) && (u - delay <=? t).
Proof.
  rewrite length_is_32 in delay_fits.
  intros Ht Hinv u Hu. pose proof (slot_range u) as Hslot.
  destruct (spikes t) eqn:Hspike.
  - unfold notify, wrap32. cbn [delayQueue total_delay].
    rewrite length_is_32, Z.mod_pow2_bits_low by lia.
    rewrite Z.lor_spec, testbit_slot by apply slot_range.
    rewrite (Hinv u Hu).
    destruct (Z.eqb_spec ((t + delay) mod 32) (u mod 32)) as [Heq|Hne].
    + assert (Hu' : u = t + delay).
      { symmetry. apply (slot_injective t); [lia | lia | exact Heq]. }
      subst u. replace (t + delay - delay) with t by lia.
      rewrite Hspike, Z.ltb_irrefl, Z.leb_refl.
      destruct (Z.leb_spec t0 t); [reflexivity | lia].
    + rewrite orb_false_r.
      destruct (Z.ltb_spec (u - delay) t), (Z.leb_spec (u - delay) t);
        try reflexivity; try lia.
      assert (u = t + delay) by lia. subst u. congruence.
  - cbn [delayQueue]. rewrite (Hinv u Hu).
    destruct (Z.ltb_spec (u - delay) t), (Z.leb_spec (u - delay) t);
      try reflexivity; try lia.
    assert (Hu' : u - delay = t) by lia. rewrite Hu', Hspike. reflexivity.
Qed.

(** One tick: charge is delivered exactly when the source fired [delay]
    ticks earlier, the bit of the tick is clear afterwards, and the queue
    holds what is pending for the next tick. *)
Lemma tick_synapse_spec (t q : Z) :
  t0 <= t -> holds_pending t q ->
  let r := tick_synapse spikes t (mkSynapse q delay) in
  fst r = spikes (t - delay) && (t0 <=? t - delay)
  /\ total_delay (snd r) = delay
  /\ Z.testbit (delayQueue (snd r)) (t mod 32) = false
  /\ holds_pending (t + 1) (delayQueue (snd r)).
Proof.
  intros Ht Hinv. cbn zeta. unfold tick_synapse, step.
  pose proof (notify_pending t q Ht Hinv) as Hq.
  set (s1 := if spikes t then notify t (mkSynapse q delay)
             else mkSynapse q delay) in *.
  assert (Hd : total_delay s1 = delay).
  { unfold s1. now destruct (spikes t). }
  rewrite length_is_32 in *.
  pose proof (Hq t ltac:(lia)) as Hnow.
  assert (Hle : (t - delay <=? t) = true) by (apply Z.leb_le; lia).
  rewrite Hle, andb_true_r in Hnow.
  destruct (Z.testbit (delayQueue s1) (t mod 32)) eqn:Hbit;
    cbn [fst snd delayQueue total_delay].
  - repeat split; [exact Hnow | exact Hd | |].
    + rewrite Z.ldiff_spec, testbit_slot, Z.eqb_refl by apply slot_range.
      now rewrite andb_false_r.
    + intros u Hu. rewrite Z.ldiff_spec, testbit_slot by apply slot_range.
      destruct (Z.eqb_spec (t mod 32) (u mod 32)) as [Heq|Hne].
      * assert (Hu' : u = t + 32).
        { destruct (Z.eq_dec u (t + 32)) as [|Hneq]; [assumption|].
          exfalso. assert (t = u); [|lia].
          apply (slot_injective t); [lia | lia | exact Heq]. }
        subst u. rewrite andb_false_r.
        destruct (Z.ltb_spec (t + 32 - delay) (t + 1)); [lia|].
        now rewrite andb_false_r.
      * assert (Hu' : u <> t + 32).
        { intros ->. apply Hne. now rewrite <- Z.add_mod_idemp_r,
            Z.mod_same, Z.add_0_r by lia. }
        rewrite andb_true_r, (Hq u) by lia.
        f_equal.
        destruct (Z.leb_spec (u - delay) t), (Z.ltb_spec (u - delay) (t + 1));
          try reflexivity; lia.
  - repeat split; [exact Hnow | exact Hd | exact Hbit |].
    intros u Hu.
    destruct (Z.eq_dec u (t + 32)) as [->|Hneq].
    + replace ((t + 32) mod 32) with (t mod 32)
        by (now rewrite <- Z.add_mod_idemp_r, Z.mod_same, Z.add_0_r by lia).
      rewrite Hbit.
      destruct (Z.ltb_spec (t + 32 - delay) (t + 1)); [lia|].
      now rewrite andb_false_r.
    + rewrite (Hq u) by lia. f_equal.
      destruct (Z.leb_spec (u - delay) t), (Z.ltb_spec (u - delay) (t + 1));
        try reflexivity; lia.
Qed.

Lemma ticks_from_S (t : Z) (n : nat) :
  ticks_from t (S n) = t :: ticks_from (t + 1) n.
Proof.
  unfold ticks_from. cbn [seq map]. rewrite Z.add_0_r. f_equal.
  rewrite <- seq_shift, map_map. apply map_ext. intros i. lia.
Qed.

Lemma ticks_from_bounds (n : nat) : forall (t x : Z),
  In x (ticks_from t n) -> t <= x < t + Z.of_nat n.
Proof.
  induction n as [|n IH]; intros t x Hin; [destruct Hin|].
  rewrite ticks_from_S in Hin. destruct Hin as [<-|Hin]; [lia|].
  apply IH in Hin. lia.
Qed.

Lemma ticks_from_In (n : nat) : forall (t x : Z),
  t <= x < t + Z.of_nat n -> In x (ticks_from t n).
Proof.
  induction n as [|n IH]; intros t x Hx; [lia|].
  rewrite ticks_from_S. destruct (Z.eq_dec t x) as [->|Hne];
    [now left | right; apply IH; lia].
Qed.

Lemma ticks_from_NoDup (n : nat) : forall (t : Z), NoDup (ticks_from t n).
Proof.
  induction n as [|n IH]; intros t; [constructor|].
  rewrite ticks_from_S. constructor; [|apply IH].
  intros Hin. apply ticks_from_bounds in Hin. lia.
Qed.

(** The deliveries of [n] ticks are the firings of the source moved
    [delay] ticks later. *)
Lemma run_deliveries (n : nat) : forall (t q : Z),
  t0 <= t -> holds_pending t q ->
  fst (run spikes n t (mkSynapse q delay))
  = filter (fun t' => spikes (t' - delay) && (t0 <=? t' - delay))
      (ticks_from t n).
Proof.
  induction n as [|n IH]; intros t q Ht Hinv; [reflexivity|].
  rewrite ticks_from_S. cbn [run filter].
  destruct (tick_synapse_spec t q Ht Hinv) as (Hd & Hdelay & _ & Hnext).
  cbn zeta in Hd, Hdelay, Hnext.
  destruct (tick_synapse spikes t (mkSynapse q delay)) as [d s1].
  cbn [fst snd] in Hd, Hdelay, Hnext.
  destruct s1 as [q1 delay1]. cbn [total_delay delayQueue] in Hdelay, Hnext.
  subst delay1.
  specialize (IH (t + 1) q1 ltac:(lia) Hnext).
  destruct (run spikes n (t + 1) (mkSynapse q1 delay)) as [ds s2].
  cbn [fst] in IH |- *. rewrite IH, <- Hd.
  now destruct d.
Qed.

End DelayQueueProperties.

(** C9.  For a synapse whose delay fits the width of its queue, run from an
    empty queue at tick [t0]: charge is delivered at exactly the ticks
    T + delay for the ticks T at which the source was notified, each of
    them once (none twice, none lost, none invented), and the bit a [step]
    has tested is clear when the [step] returns. *)
Theorem delay_queue_delivers_once (spikes : Z -> bool) (delay t0 : Z) (n : nat) :
  0 <= delay < DelayQueue.LENGTH_OF_DELAYQUEUE ->
  let delivered :=
    fst (DelayQueue.run spikes n t0 (DelayQueue.mkSynapse 0 delay)) in
  delivered
  = filter (fun t => spikes (t - delay) && (t0 <=? t - delay))
      (DelayQueue.ticks_from t0 n)
  /\ NoDup delivered
  /\ (forall T, t0 <= T -> T + delay < t0 + Z.of_nat n -> spikes T = true ->
        count_occ Z.eq_dec delivered (T + delay) = 1%nat)
  /\ (forall t, In t delivered -> t0 <= t - delay /\ spikes (t - delay) = true)
  /\ (forall tick s,
        Z.testbit (DelayQueue.delayQueue (snd (DelayQueue.step tick s)))
          (tick mod DelayQueue.LENGTH_OF_DELAYQUEUE) = false).
Proof.
  intros Hdelay delivered.
  assert (Hrun : delivered
                 = filter (fun t => spikes (t - delay) && (t0 <=? t - delay))
                     (DelayQueue.ticks_from t0 n)).
  { unfold delivered. apply run_deliveries; [exact Hdelay | lia |].
    now apply empty_holds_pending. }
  assert (Hnodup : NoDup delivered).
  { rewrite Hrun. apply NoDup_filter, ticks_from_NoDup. }
  split; [exact Hrun|]. split; [exact Hnodup|]. split; [|split].
  - intros T HT Hend Hspike.
    apply NoDup_count_occ'; [exact Hnodup|].
    rewrite Hrun. apply filter_In. split.
    + apply ticks_from_In. lia.
    + replace (T + delay - delay) with T by lia. rewrite Hspike.
      now apply Z.leb_le.
  - intros t Hin. rewrite Hrun in Hin. apply filter_In in Hin.
    destruct Hin as (_ & Hb). apply andb_prop in Hb.
    destruct Hb as (Hs & Hle). split; [now apply Z.leb_le | exact Hs].
  - intros tick s. unfold DelayQueue.step.
    destruct (Z.testbit (DelayQueue.delayQueue s)
                (tick mod DelayQueue.LENGTH_OF_DELAYQUEUE)) eqn:Hbit;
      cbn [snd DelayQueue.delayQueue]; [|exact Hbit].
    rewrite Z.ldiff_spec, testbit_slot, Z.eqb_refl.
    + now rewrite andb_false_r.
    + apply Z.mod_pos_bound. reflexivity.
Qed.

Lemma delay_queue_delivers_once_witness :
  fst (DelayQueue.run sample_spikes 10 0 (DelayQueue.mkSynapse 0 3)) = [5; 7].
Proof.
  destruct (delay_queue_delivers_once sample_spikes 3 0 10) as (Hrun & _).
  - rewrite length_is_32. lia.
  - rewrite Hrun. reflexivity.
Defined.

(* ================================================================== *)
(** * Further properties of the scheduler *)
(* ================================================================== *)

(** ** The scheduler does not look inside the network *)

Section BlackBox.

Context {Net Image : Type} `{NetworkOps Net Image}.
Variable si : SimulationInfo.
Variable net0 : Net.

(** A world over [Net] follows a world over logs when the counters agree
    and the network is what the log makes of [net0]. *)
Let follows (w : World Net) (wt : World Trace) : Prop :=
  g_simulationStep w = g_simulationStep wt
  /\ network w = replay (network wt) net0.

Lemma advance_loop_follows (n : nat) : forall e w wt,
  follows w wt -> follows (advance_loop n e w) (advance_loop n e wt).
Proof.
  induction n as [|n IH]; intros e w wt Hf; [exact Hf|].
  destruct Hf as (Hg & Hn). cbn [advance_loop]. rewrite Hg.
  destruct (g_simulationStep wt <? e); [|now split].
  apply IH. split; cbn [g_simulationStep network]; [reflexivity|].
  cbn [advance TraceNetwork]. now rewrite replay_app, Hn.
Qed.

Lemma growthCycle_follows (k : Z) w wt :
  follows w wt -> follows (growthCycle si k w) (growthCycle si k wt).
Proof.
  intros Hf. unfold growthCycle, advanceUntilGrowth.
  destruct Hf as (Hg & Hn). rewrite Hg.
  destruct (advance_loop_follows
              (Z.to_nat (wrap64 (g_simulationStep wt + ticksPerEpoch si)
                         - g_simulationStep wt))
              (wrap64 (g_simulationStep wt + ticksPerEpoch si)) w wt)
    as (Hg' & Hn'); [now split|].
  split; cbn [g_simulationStep network]; [exact Hg'|].
  cbn [updateConnections TraceNetwork]. now rewrite replay_app, Hn'.
Qed.

Lemma simulate_loop_follows (n : nat) : forall k w wt,
  follows w wt -> follows (simulate_loop si n k w) (simulate_loop si n k wt).
Proof.
  induction n as [|n IH]; intros k w wt Hf; [exact Hf|].
  cbn [simulate_loop]. destruct (k <=? maxSteps si); [|exact Hf].
  apply IH. now apply growthCycle_follows.
Qed.

Lemma simulate_follows w wt :
  follows w wt -> follows (simulate si w) (simulate si wt).
Proof.
  intros Hf. unfold simulate, after_epochs.
  destruct (simulate_loop_follows (Z.to_nat (maxSteps si)) 1
              (simulate_setup si w) (simulate_setup si wt)) as (Hg & Hn).
  - destruct Hf as (Hg & Hn). split; cbn [simulate_setup g_simulationStep network];
      [exact Hg|]. cbn [setup TraceNetwork]. now rewrite replay_app, Hn.
  - split; cbn [g_simulationStep network]; [exact Hg|].
    cbn [finish TraceNetwork]. now rewrite replay_app, Hn.
Qed.

End BlackBox.

(** X1.  The scheduler treats the network as a black box: for every
    implementation of the network, every configuration and every starting
    tick, the tick counter after [simulate] is the one of the run on the
    recording network, and the final network is the result of making on
    the initial network, in order, the calls that the recording network
    logged.  No bound on the tick counter is assumed. *)
Theorem simulate_black_box {Net Image : Type} `{NetworkOps Net Image}
    (si : SimulationInfo) (g : Z) (net : Net) :
  let recorded := simulate si (mkWorld g ([] : Trace)) in
  simulate si (mkWorld g net)
  = mkWorld (g_simulationStep recorded) (replay (network recorded) net).
Proof.
  cbv zeta.
  destruct (simulate_follows si net (mkWorld g net) (mkWorld g ([] : Trace)))
    as (Hg & Hn); [now split|].
  destruct (simulate si (mkWorld g net)) as [g' net'].
  cbn [g_simulationStep network] in Hg, Hn. now rewrite Hg, Hn.
Qed.

(** ** What holds whatever the tick arithmetic does *)

Lemma update_steps_snoc_advance (tr : Trace) (g : Z) :
  update_steps (tr ++ [EAdvance g]) = update_steps tr.
Proof. rewrite update_steps_app. cbn. now rewrite app_nil_r. Qed.

Lemma advance_loop_update_steps (si : SimulationInfo) (n : nat) :
  forall e (w : World Trace),
  update_steps (network (advance_loop n e w)) = update_steps (network w).
Proof.
  induction n as [|n IH]; intros e w; [reflexivity|].
  cbn [advance_loop]. destruct (g_simulationStep w <? e); [|reflexivity].
  rewrite IH. cbn [network advance TraceNetwork].
  apply update_steps_snoc_advance.
Qed.

Lemma simulate_loop_update_steps (si : SimulationInfo) (n : nat) :
  forall k (w : World Trace),
  (n <> O -> k + Z.of_nat n - 1 <= maxSteps si) ->
  update_steps (network (simulate_loop si n k w))
  = update_steps (network w) ++ map (fun i => k + Z.of_nat i) (seq 0 n).
Proof.
  induction n as [|n IH]; intros k w Hk.
  - cbn. now rewrite app_nil_r.
  - cbn [simulate_loop].
    destruct (Z.leb_spec k (maxSteps si)) as [_|Hgt]; [|lia].
    rewrite IH by (intros; lia).
    unfold growthCycle, advanceUntilGrowth.
    cbn [network updateConnections TraceNetwork].
    rewrite update_steps_app, (advance_loop_update_steps si), <- app_assoc.
    f_equal. cbn [seq map update_steps flat_map app]. rewrite Z.add_0_r.
    f_equal. rewrite <- seq_shift, map_map. apply map_ext. intros i. lia.
Qed.

Lemma advance_loop_appends (n : nat) : forall e (w : World Trace),
  exists added,
    network (advance_loop n e w) = network w ++ added
    /\ forallb is_epoch_event added = true.
Proof.
  induction n as [|n IH]; intros e w;
    [exists []; now rewrite app_nil_r|].
  cbn [advance_loop].
  destruct (g_simulationStep w <? e); [|exists []; now rewrite app_nil_r].
  destruct (IH e {| g_simulationStep := wrap64 (g_simulationStep w + 1);
                    network := advance (g_simulationStep w) (network w) |})
    as (added & Hadd & Hall).
  rewrite Hadd. cbn [network advance TraceNetwork].
  exists (EAdvance (g_simulationStep w) :: added). split.
  - now rewrite <- app_assoc.
  - exact Hall.
Qed.

Lemma simulate_loop_appends (si : SimulationInfo) (n : nat) :
  forall k (w : World Trace),
  exists added,
    network (simulate_loop si n k w) = network w ++ added
    /\ forallb is_epoch_event added = true.
Proof.
  induction n as [|n IH]; intros k w;
    [exists []; now rewrite app_nil_r|].
  cbn [simulate_loop].
  destruct (k <=? maxSteps si); [|exists []; now rewrite app_nil_r].
  destruct (IH (k + 1) (growthCycle si k w)) as (added & Hadd & Hall).
  rewrite Hadd. unfold growthCycle, advanceUntilGrowth.
  cbn [network updateConnections TraceNetwork].
  destruct (advance_loop_appends
              (Z.to_nat (wrap64 (g_simulationStep w + ticksPerEpoch si)
                         - g_simulationStep w))
              (wrap64 (g_simulationStep w + ticksPerEpoch si)) w)
    as (ticks & Hticks & Hall').
  rewrite Hticks. exists (ticks ++ [EUpdateConnections k] ++ added). split.
  - now rewrite <- !app_assoc.
  - rewrite !forallb_app, Hall, Hall'. reflexivity.
Qed.

(** X2.  In every configuration, whatever the epoch length and the tick
    counter, what [simulate] adds to the log is one [setup], then ticks and
    growth updates only, then one [finish]; and the growth updates are
    exactly max(maxSteps, 0) in number, numbered 1, 2, ... in order. *)
Theorem simulate_growth_updates (si : SimulationInfo) (g : Z) (log : Trace) :
  let final := network (simulate si (mkWorld g log)) in
  update_steps final
  = update_steps log
    ++ map (fun i => 1 + Z.of_nat i) (seq 0 (Z.to_nat (maxSteps si)))
  /\ exists middle,
       final = log ++ [ESetup (epochDuration si) (maxSteps si)] ++ middle
                   ++ [EFinish (epochDuration si) (maxSteps si)]
       /\ forallb is_epoch_event middle = true.
Proof.
  cbv zeta. split.
  - unfold simulate, after_epochs, simulate_setup.
    cbn [network g_simulationStep finish setup TraceNetwork].
    rewrite update_steps_app, simulate_loop_update_steps by (intros; lia).
    cbn [network]. rewrite update_steps_app. cbn [update_steps flat_map app].
    now rewrite !app_nil_r.
  - unfold simulate, after_epochs.
    destruct (simulate_loop_appends si (Z.to_nat (maxSteps si)) 1
                (simulate_setup si (mkWorld g log))) as (middle & Hmid & Hall).
    cbn [network finish TraceNetwork]. rewrite Hmid.
    cbn [simulate_setup network setup TraceNetwork].
    exists middle. split; [now rewrite <- !app_assoc | exact Hall].
Qed.

(** ** Stopping a run and resuming it *)



(** ** The tick counter *)

Lemma advance_ticks_snoc (tr : Trace) (g : Z) :
  advance_ticks (tr ++ [EAdvance g]) = advance_ticks tr ++ [g].
Proof. now rewrite advance_ticks_app. Qed.

Lemma consecutive_snoc (g0 : Z) (n : nat) :
  map (fun i => g0 + Z.of_nat i) (seq 0 (S n))
  = map (fun i => g0 + Z.of_nat i) (seq 0 n) ++ [g0 + Z.of_nat n].
Proof. now rewrite seq_S, map_app. Qed.

Lemma advance_loop_counted (g0 : Z) (log0 : Trace) (n : nat) :
  forall e (w : World Trace),
  0 <= g0 -> e < UINT64_MOD -> counted_from g0 log0 w ->
  counted_from g0 log0 (advance_loop n e w).
Proof.
  induction n as [|n IH]; intros e w H0 He Hc; [exact Hc|].
  cbn [advance_loop].
  destruct (Z.ltb_spec (g_simulationStep w) e) as [Hlt|_]; [|exact Hc].
  apply IH; [exact H0 | exact He |]. destruct Hc as (Hr & Ht).
  unfold counted_from. cbn [g_simulationStep network advance TraceNetwork].
  rewrite wrap64_small by lia. split; [lia|].
  rewrite advance_ticks_snoc, Ht, <- app_assoc. f_equal.
  replace (Z.to_nat (g_simulationStep w + 1 - g0))
    with (S (Z.to_nat (g_simulationStep w - g0))) by lia.
  rewrite consecutive_snoc. f_equal. f_equal. lia.
Qed.

Lemma growthCycle_counted (si : SimulationInfo) (g0 : Z) (log0 : Trace)
    (k : Z) (w : World Trace) :
  0 <= g0 ->
  counted_from g0 log0 w -> counted_from g0 log0 (growthCycle si k w).
Proof.
  intros H0 Hc. unfold growthCycle, advanceUntilGrowth.
  pose proof (wrap64_range (g_simulationStep w + ticksPerEpoch si)) as Hr.
  destruct (advance_loop_counted g0 log0
              (Z.to_nat (wrap64 (g_simulationStep w + ticksPerEpoch si)
                         - g_simulationStep w))
              (wrap64 (g_simulationStep w + ticksPerEpoch si)) w)
    as (Hrange & Hticks); [exact H0 | lia | exact Hc |].
  split; cbn [g_simulationStep network updateConnections TraceNetwork];
    [exact Hrange|].
  rewrite advance_ticks_app, Hticks. cbn. now rewrite app_nil_r.
Qed.

Lemma simulate_loop_counted (si : SimulationInfo) (g0 : Z) (log0 : Trace)
    (n : nat) : forall k (w : World Trace),
  0 <= g0 ->
  counted_from g0 log0 w -> counted_from g0 log0 (simulate_loop si n k w).
Proof.
  induction n as [|n IH]; intros k w H0 Hc; [exact Hc|].
  cbn [simulate_loop]. destruct (k <=? maxSteps si); [|exact Hc].
  apply IH; [exact H0|]. now apply growthCycle_counted.
Qed.

(** X3.  In every configuration the tick counter counts the network
    advances one for one: started in the range of [uint64_t], it ends
    [simulate] in that range and not below where it started, and the ticks
    seen by the advances of the run are the start tick and its successors,
    in order and without gap, up to the final counter.  This holds also
    for runs in which the end of an epoch wraps past 2^64. *)
Theorem tick_counter_counts_advances (si : SimulationInfo) (g : Z) (log : Trace) :
  0 <= g < UINT64_MOD ->
  let final := simulate si (mkWorld g log) in
  g <= g_simulationStep final < UINT64_MOD
  /\ advance_ticks (network final)
     = advance_ticks log
       ++ map (fun i => g + Z.of_nat i)
            (seq 0 (Z.to_nat (g_simulationStep final - g))).
Proof.
  intros Hg. cbv zeta.
  assert (Hsetup : counted_from g log (simulate_setup si (mkWorld g log))).
  { unfold counted_from.
    cbn [simulate_setup g_simulationStep network setup TraceNetwork].
    split; [lia|]. rewrite Z.sub_diag, advance_ticks_app. cbn.
    now rewrite !app_nil_r. }
  pose proof (simulate_loop_counted si g log (Z.to_nat (maxSteps si)) 1 _
                (proj1 Hg) Hsetup) as (Hrange & Hticks).
  unfold simulate, after_epochs.
  cbn [g_simulationStep network finish TraceNetwork].
  split; [exact Hrange|].
  rewrite advance_ticks_app, Hticks. cbn. now rewrite app_nil_r.
Qed.

Lemma tick_counter_counts_advances_witness :
  advance_ticks (network (simulate tiny_info (mkWorld 4 ([] : Trace))))
  = [] ++ map (fun i => 4 + Z.of_nat i)
            (seq 0 (Z.to_nat
                      (g_simulationStep
                         (simulate tiny_info (mkWorld 4 ([] : Trace))) - 4))).
Proof.
  apply (tick_counter_counts_advances tiny_info 4 []).
  vm_compute. split; [discriminate | reflexivity].
Defined.

(** ** Epochs at the edges *)

Lemma wrap64_once (z : Z) :
  UINT64_MOD <= z < 2 * UINT64_MOD -> wrap64 z = z - UINT64_MOD.
Proof.
  intros Hz. unfold wrap64.
  replace z with (z - UINT64_MOD + 1 * UINT64_MOD) at 1 by lia.
  rewrite Z.mod_add by discriminate. apply Z.mod_small. lia.
Qed.

(** X4.  What one call of [advanceUntilGrowth] does, for every epoch
    length and every tick counter in the range of [uint64_t].  When the
    end of the epoch stays below 2^64 the network is advanced once per
    tick, [ticksPerEpoch] times, and the counter ends [ticksPerEpoch]
    higher.  When the end of the epoch is 2^64 or more, the sum wraps to a
    value not above the counter, the loop is not entered, and neither the
    network nor the counter changes. *)
Theorem advanceUntilGrowth_effect {Net Image : Type} `{NetworkOps Net Image}
    (si : SimulationInfo) (currentStep g : Z) (net : Net) :
  0 <= g < UINT64_MOD ->
  advanceUntilGrowth si currentStep (mkWorld g net)
  = if g + ticksPerEpoch si <? UINT64_MOD
    then mkWorld (g + ticksPerEpoch si)
           (replay (map (fun i => EAdvance (g + Z.of_nat i))
                      (seq 0 (Z.to_nat (ticksPerEpoch si)))) net)
    else mkWorld g net.
Proof.
  intros Hg. pose proof (ticksPerEpoch_range si) as HT.
  destruct (Z.ltb_spec (g + ticksPerEpoch si) UINT64_MOD) as [Hlt|Hge].
  - apply advanceUntilGrowth_replay; lia.
  - unfold advanceUntilGrowth. cbn [g_simulationStep].
    rewrite wrap64_once by lia.
    replace (Z.to_nat (g + ticksPerEpoch si - UINT64_MOD - g)) with O by lia.
    reflexivity.
Qed.

Lemma advanceUntilGrowth_effect_witness :
  advanceUntilGrowth wrapping_info 2 (mkWorld (2 ^ 63) ([] : Trace))
  = mkWorld (2 ^ 63) [].
Proof.
  rewrite (advanceUntilGrowth_effect wrapping_info 2 (2 ^ 63) ([] : Trace)).
  - reflexivity.
  - vm_compute. split; [discriminate | reflexivity].
Defined.

Lemma epochs_events_no_ticks (n : nat) : forall k g,
  epochs_events 0 n k g
  = map (fun i => EUpdateConnections (k + Z.of_nat i)) (seq 0 n).
Proof.
  induction n as [|n IH]; intros k g; [reflexivity|].
  cbn [epochs_events]. rewrite IH. unfold epoch_events.
  cbn [Z.to_nat seq map app]. rewrite Z.add_0_r. f_equal.
  rewrite <- seq_shift, map_map. apply map_ext. intros i. f_equal. lia.
Qed.

(** X5.  An epoch shorter than one time step has no tick: when
    0 <= epochDuration / deltaT < 1 the run still makes its maxSteps growth
    updates, one right after the other, but never advances the network, and
    the tick counter ends where it started. *)
Theorem epoch_shorter_than_a_tick (si : SimulationInfo) (g : Z) (log : Trace) :
  (0 <= epochDuration si / deltaT si)%Q ->
  (epochDuration si / deltaT si < 1)%Q ->
  0 <= g < UINT64_MOD ->
  ticksPerEpoch si = 0
  /\ simulate si (mkWorld g log)
     = mkWorld g
         (log ++ [ESetup (epochDuration si) (maxSteps si)]
              ++ map (fun i => EUpdateConnections (1 + Z.of_nat i))
                   (seq 0 (Z.to_nat (maxSteps si)))
              ++ [EFinish (epochDuration si) (maxSteps si)]).
Proof.
  intros H0 H1 Hg.
  assert (Hfloor : Qfloor (epochDuration si / deltaT si) = 0).
  { pose proof (Qfloor_nonneg _ H0) as Hlo.
    pose proof (Qle_lt_trans _ _ _ (Qfloor_le (epochDuration si / deltaT si)) H1)
      as Hhi.
    change 1%Q with (inject_Z 1) in Hhi. rewrite <- Zlt_Qlt in Hhi. lia. }
  assert (HT : ticksPerEpoch si = 0).
  { unfold ticksPerEpoch. rewrite static_cast_uint64_floor; rewrite ?Hfloor;
      [reflexivity | exact H0 | reflexivity]. }
  split; [exact HT|].
  rewrite simulate_replay by (rewrite ?HT; lia).
  rewrite HT, Z.mul_0_r, Z.add_0_r, replay_trace, epochs_events_no_ticks.
  reflexivity.
Qed.

Lemma epoch_shorter_than_a_tick_witness :
  simulate short_info (mkWorld 0 ([] : Trace))
  = mkWorld 0 [ESetup (1 # 20000)%Q 2; EUpdateConnections 1;
               EUpdateConnections 2; EFinish (1 # 20000)%Q 2].
Proof.
  destruct (epoch_shorter_than_a_tick short_info 0 []) as (_ & Hrun).
  - vm_compute. discriminate.
  - vm_compute. reflexivity.
  - vm_compute. split; [discriminate | reflexivity].
  - exact Hrun.
Defined.

(** X6.  A configuration that asks for no epoch (maxSteps <= 0, negative
    included) still sets the network up and finishes it, in that order, and
    does nothing else: no tick, no growth update, the tick counter
    untouched. *)
Theorem simulate_without_epochs {Net Image : Type} `{NetworkOps Net Image}
    (si : SimulationInfo) (w : World Net) :
  maxSteps si <= 0 ->
  simulate si w
  = mkWorld (g_simulationStep w)
      (finish (epochDuration si) (maxSteps si)
         (setup (epochDuration si) (maxSteps si) (network w))).
Proof.
  intros Hm. unfold simulate, after_epochs.
  destruct (Z.to_nat (maxSteps si)) as [|n] eqn:Hn.
  - reflexivity.
  - cbn [simulate_loop].
    destruct (Z.leb_spec 1 (maxSteps si)) as [Hle|_]; [lia | reflexivity].
Qed.

Lemma simulate_without_epochs_witness :
  simulate idle_info (mkWorld 7 ([] : Trace))
  = mkWorld 7 [ESetup 1%Q 0; EFinish 1%Q 0].
Proof.
  assert (Hm : maxSteps idle_info <= 0) by (vm_compute; discriminate).
  exact (@simulate_without_epochs Trace _ TraceNetwork idle_info
           (mkWorld 7 []) Hm).
Defined.

(* ================================================================== *)
(** * Further properties of the driver *)
(* ================================================================== *)

Section DriverMore.

Context {Net Image : Type} `{NetworkOps Net Image}.
Variable Model : Type.
Variable new_LIFSingleThreadedModel : Model.
Variable readParameters : TiXmlElement -> Model -> Outcome bool * Model.
Variable new_Network : Model -> SimulationInfo -> Net.
Variable DEFAULT_dt : BGFLOAT.
Variable scan_int : string -> option Z.
Variable scan_FLOAT : string -> option BGFLOAT.
Variable scan_long : string -> option Z.
Variable scan_string : string -> option string.
Variable cl_addParam_ok : bool.
Variable cl_parseCommandLine : list string -> option (string -> string).
Variable files : Driver.Files (Image := Image).

Local Abbreviation LoadSimParms :=
  (Driver.LoadSimParms Model scan_int scan_FLOAT scan_long scan_string).
Local Abbreviation required_fields_ok :=
  (Driver.required_fields_ok scan_int scan_FLOAT scan_long scan_string).
Local Abbreviation load_simulation_parameters :=
  (Driver.load_simulation_parameters Model readParameters scan_int
     scan_FLOAT scan_long scan_string files).
Local Abbreviation parseCommandLine :=
  (Driver.parseCommandLine Model cl_addParam_ok cl_parseCommandLine).
Local Abbreviation main :=
  (Driver.main Model new_LIFSingleThreadedModel readParameters new_Network
     DEFAULT_dt scan_int scan_FLOAT scan_long scan_string cl_addParam_ok
     cl_parseCommandLine files).

Lemma field_value_query {A : Type} (scan : string -> option A)
    (element attribute : string) (parms : TiXmlElement) (v : A) :
  field_value scan element attribute parms = Some v ->
  exists e,
    FirstChildElement element (children parms) = Some e
    /\ QueryAttribute scan attribute e = TIXML_SUCCESS v.
Proof.
  unfold field_value, QueryAttribute.
  destruct (FirstChildElement element (children parms)) as [e|];
    [|discriminate].
  intros Hv. exists e. split; [reflexivity|].
  destruct (Attribute attribute e) as [text|]; [|discriminate].
  now rewrite Hv.
Qed.

Lemma query_or_flag_success {A : Type} (q : QueryResult A) (v : A)
    (assign : A -> Driver.Globals Model -> Driver.Globals Model)
    (name : string) (fSet : bool) (g : Driver.Globals Model) :
  q = TIXML_SUCCESS v ->
  Driver.query_or_flag Model q assign name fSet g = (fSet, assign v g).
Proof. intros ->. reflexivity. Qed.

(** The globals in which [LoadSimParms] leaves a parameter file that gives
    all nine fields. *)
Lemma LoadSimParms_returns (parms : TiXmlElement)
    (g : Driver.Globals Model) (x y z : Z) (tsim : BGFLOAT)
    (sims rate cap : Z) (out : string) (sd : Z) :
  field_value scan_int "PoolSize" "x" parms = Some x ->
  field_value scan_int "PoolSize" "y" parms = Some y ->
  field_value scan_int "PoolSize" "z" parms = Some z ->
  field_value scan_FLOAT "SimParams" "Tsim" parms = Some tsim ->
  field_value scan_int "SimParams" "numSims" parms = Some sims ->
  field_value scan_int "SimParams" "maxFiringRate" parms = Some rate ->
  field_value scan_int "SimParams" "maxSynapsesPerNeuron" parms = Some cap ->
  field_value scan_string "OutputParams" "stateOutputFileName" parms
  = Some out ->
  field_value scan_long "Seed" "value" parms = Some sd ->
  LoadSimParms parms g
  = (Returned tt,
     {| Driver.stateOutputFileName := out;
        Driver.stateInputFileName := Driver.stateInputFileName g;
        Driver.memOutputFileName := Driver.memOutputFileName Model g;
        Driver.memInputFileName := Driver.memInputFileName Model g;
        Driver.fReadMemImage := Driver.fReadMemImage Model g;
        Driver.fWriteMemImage := Driver.fWriteMemImage Model g;
        Driver.poolsize := store 2 z (store 1 y (store 0 x (Driver.poolsize g)));
        Driver.model := Driver.model Model g;
        Driver.Tsim := tsim;
        Driver.numSims := sims;
        Driver.maxFiringRate := rate;
        Driver.maxSynapsesPerNeuron := cap;
        Driver.seed := sd;
        Driver.cerr := Driver.cerr g |}).
Proof.
  intros Hx Hy Hz Ht Hs Hr Hc Ho Hsd.
  apply field_value_query in Hx, Hy, Hz, Ht, Hs, Hr, Hc, Ho, Hsd.
  destruct Hx as (e1 & E1 & Qx). destruct Hy as (e1a & E1a & Qy).
  destruct Hz as (e1b & E1b & Qz). destruct Ht as (e2 & E2 & Qt).
  destruct Hs as (e2a & E2a & Qs). destruct Hr as (e2b & E2b & Qr).
  destruct Hc as (e2c & E2c & Qc). destruct Ho as (e3 & E3 & Qo).
  destruct Hsd as (e4 & E4 & Qsd).
  rewrite E1 in E1a, E1b. injection E1a as <-. injection E1b as <-.
  rewrite E2 in E2a, E2b, E2c. injection E2a as <-. injection E2b as <-.
  injection E2c as <-.
  unfold Driver.LoadSimParms, Driver.bind. rewrite E1, E2, E3, E4.
  rewrite (query_or_flag_success _ _ _ _ _ _ Qx).
  rewrite (query_or_flag_success _ _ _ _ _ _ Qy).
  rewrite (query_or_flag_success _ _ _ _ _ _ Qz).
  rewrite (query_or_flag_success _ _ _ _ _ _ Qt).
  rewrite (query_or_flag_success _ _ _ _ _ _ Qs).
  rewrite (query_or_flag_success _ _ _ _ _ _ Qr).
  rewrite (query_or_flag_success _ _ _ _ _ _ Qc).
  rewrite (query_or_flag_success _ _ _ _ _ _ Qo).
  rewrite (query_or_flag_success _ _ _ _ _ _ Qsd).
  reflexivity.
Qed.

(** X7.  When the parameter file gives all nine fields, [LoadSimParms]
    returns without throwing and leaves the globals with exactly these
    values in pool size, [Tsim], [numSims], [maxFiringRate],
    [maxSynapsesPerNeuron], output file name and seed; nothing goes to
    [cerr], and the command-line globals and the model object are as they
    were.  The output file name that the command line had set is
    overwritten by the one of the parameter file. *)
Theorem LoadSimParms_loads_values (parms : TiXmlElement)
    (g : Driver.Globals Model) (x y z : Z) (tsim : BGFLOAT)
    (sims rate cap : Z) (out : string) (sd : Z) :
  field_value scan_int "PoolSize" "x" parms = Some x ->
  field_value scan_int "PoolSize" "y" parms = Some y ->
  field_value scan_int "PoolSize" "z" parms = Some z ->
  field_value scan_FLOAT "SimParams" "Tsim" parms = Some tsim ->
  field_value scan_int "SimParams" "numSims" parms = Some sims ->
  field_value scan_int "SimParams" "maxFiringRate" parms = Some rate ->
  field_value scan_int "SimParams" "maxSynapsesPerNeuron" parms = Some cap ->
  field_value scan_string "OutputParams" "stateOutputFileName" parms
  = Some out ->
  field_value scan_long "Seed" "value" parms = Some sd ->
  let g' := snd (LoadSimParms parms g) in
  fst (LoadSimParms parms g) = Returned tt
  /\ Driver.poolsize g' = store 2 z (store 1 y (store 0 x (Driver.poolsize g)))
  /\ (List.length (Driver.poolsize g) = 3%nat -> Driver.poolsize g' = [x; y; z])
  /\ Driver.Tsim Model g' = tsim
  /\ Driver.numSims Model g' = sims
  /\ Driver.maxFiringRate Model g' = rate
  /\ Driver.maxSynapsesPerNeuron Model g' = cap
  /\ Driver.stateOutputFileName Model g' = out
  /\ Driver.seed Model g' = sd
  /\ Driver.cerr g' = Driver.cerr g.
Proof.
  intros Hx Hy Hz Ht Hs Hr Hc Ho Hsd. cbv zeta.
  rewrite (LoadSimParms_returns parms g x y z tsim sims rate cap out sd)
    by assumption.
  cbn. repeat split.
  intros Hlen. destruct (Driver.poolsize g) as [|a [|b [|c [|d l]]]];
    try discriminate. reflexivity.
Qed.

(** An assignment of [LoadSimParms] that leaves an observation [proj] of
    the globals alone leaves it alone after the whole query, too. *)
Lemma query_or_flag_frame {A X : Type} (proj : Driver.Globals Model -> X)
    (q : QueryResult A)
    (assign : A -> Driver.Globals Model -> Driver.Globals Model)
    (name : string) (fSet : bool) (g : Driver.Globals Model) :
  (forall v g0, proj (assign v g0) = proj g0) ->
  (forall l g0, proj (Driver.set_cerr Model l g0) = proj g0) ->
  proj (snd (Driver.query_or_flag Model q assign name fSet g)) = proj g.
Proof.
  intros Hassign Hcerr. destruct q; cbn; auto.
Qed.

Lemma LoadSimParms_preserves {X : Type} (proj : Driver.Globals Model -> X) :
  (forall v g, proj (Driver.set_poolsize Model v g) = proj g) ->
  (forall v g, proj (Driver.set_Tsim Model v g) = proj g) ->
  (forall v g, proj (Driver.set_numSims Model v g) = proj g) ->
  (forall v g, proj (Driver.set_maxFiringRate Model v g) = proj g) ->
  (forall v g, proj (Driver.set_maxSynapsesPerNeuron Model v g) = proj g) ->
  (forall v g, proj (Driver.set_stateOutputFileName Model v g) = proj g) ->
  (forall v g, proj (Driver.set_seed Model v g) = proj g) ->
  (forall l g, proj (Driver.set_cerr Model l g) = proj g) ->
  forall parms g, proj (snd (LoadSimParms parms g)) = proj g.
Proof.
  intros Hpool Htsim Hsims Hrate Hcap Hout Hseed Hcerr parms g.
  unfold Driver.LoadSimParms, Driver.bind.
  destruct (FirstChildElement "PoolSize" (children parms)) as [e1|];
  destruct (FirstChildElement "SimParams" (children parms)) as [e2|];
  destruct (FirstChildElement "OutputParams" (children parms)) as [e3|];
  destruct (FirstChildElement "Seed" (children parms)) as [e4|];
  unfold Driver.cerr_endl, Driver.modify, Driver.ret;
  repeat match goal with
    | |- context [Driver.query_or_flag Model ?q ?a ?n ?b ?g0] =>
        let F := fresh "F" in
        let b' := fresh "fSet" in
        let g' := fresh "g" in
        pose proof (query_or_flag_frame proj q a n b g0
                      ltac:(intros; cbv beta; auto) Hcerr) as F;
        destruct (Driver.query_or_flag Model q a n b g0) as [b' g'];
        cbn [snd] in F
    end;
  match goal with
  | |- context [negb ?b] => destruct b
  end;
  cbn [negb snd];
  repeat (rewrite ?Hcerr;
          match goal with
          | F : proj _ = _ |- _ => rewrite F; clear F
          end);
  rewrite ?Hcerr; reflexivity.
Qed.

(** X8.  Whatever the parameter file holds, and whether it throws or not,
    [LoadSimParms] never touches what the command line has set (the name
    of the parameter file, the names of the memory images and the two flags
    that say whether to read and write one) nor the model object. *)
Theorem LoadSimParms_keeps_command_line (parms : TiXmlElement)
    (g : Driver.Globals Model) :
  let g' := snd (LoadSimParms parms g) in
  Driver.stateInputFileName g' = Driver.stateInputFileName g
  /\ Driver.memInputFileName Model g' = Driver.memInputFileName Model g
  /\ Driver.memOutputFileName Model g' = Driver.memOutputFileName Model g
  /\ Driver.fReadMemImage Model g' = Driver.fReadMemImage Model g
  /\ Driver.fWriteMemImage Model g' = Driver.fWriteMemImage Model g
  /\ Driver.model Model g' = Driver.model Model g.
Proof.
  cbv zeta.
  repeat split;
    apply (LoadSimParms_preserves (fun g0 => _ g0)); reflexivity.
Qed.

Lemma FirstChildElement_app (name : string) (cs extra : list TiXmlElement) :
  FirstChildElement name cs <> None ->
  FirstChildElement name (cs ++ extra) = FirstChildElement name cs.
Proof.
  unfold FirstChildElement. induction cs as [|c cs IH]; intros Hfound.
  - now elim Hfound.
  - cbn [find app] in *. destruct (String.eqb (Value c) name); [reflexivity|].
    now apply IH.
Qed.

(** X9.  Only the first child of each name counts: when the parameter
    element has a [PoolSize], a [SimParams], an [OutputParams] and a [Seed]
    child, children appended after them, whatever their names and
    attributes, change neither the outcome of [LoadSimParms] nor the
    globals it leaves. *)
Theorem LoadSimParms_first_child_only (value : string)
    (attrs : list (string * string)) (cs extra : list TiXmlElement)
    (g : Driver.Globals Model) :
  FirstChildElement "PoolSize" cs <> None ->
  FirstChildElement "SimParams" cs <> None ->
  FirstChildElement "OutputParams" cs <> None ->
  FirstChildElement "Seed" cs <> None ->
  LoadSimParms (XmlElement value attrs (cs ++ extra)) g
  = LoadSimParms (XmlElement value attrs cs) g.
Proof.
  intros H1 H2 H3 H4. unfold Driver.LoadSimParms. cbn [children].
  now rewrite !FirstChildElement_app by assumption.
Qed.

(** X10.  [load_simulation_parameters] returns [true] in exactly one case:
    the file loads, its document has a [SimParams] root, the nine fields of
    [LoadSimParms] are in order, and the model object, given that root and
    untouched until then, reads its parameters without throwing.  A file
    that does not load, a missing root, a field at fault and an exception
    of the model object each make it return [false]; the [bool] that the
    model object returns makes no difference. *)
Theorem load_simulation_parameters_true_iff (name : string)
    (g : Driver.Globals Model) :
  fst (load_simulation_parameters name g) = true
  <-> exists doc parms b m',
        Driver.xml_file files name = Some doc
        /\ FirstChildElement "SimParams" doc = Some parms
        /\ required_fields_ok parms = true
        /\ readParameters parms (Driver.model Model g) = (Returned b, m').
Proof.
  unfold Driver.load_simulation_parameters.
  destruct (Driver.xml_file files name) as [doc|] eqn:Efile.
  2:{ split; [discriminate|]. intros (? & ? & ? & ? & Hf & _). discriminate. }
  destruct (FirstChildElement "SimParams" doc) as [parms|] eqn:Eroot.
  2:{ split; [discriminate|].
      intros (? & ? & ? & ? & Hf & Hr & _). injection Hf as <-.
      rewrite Eroot in Hr. discriminate. }
  unfold Driver.bind.
  pose proof (LoadSimParms_outcome Model scan_int scan_FLOAT scan_long
                scan_string parms g) as Hout.
  pose proof (LoadSimParms_preserves (Driver.model Model)
                ltac:(reflexivity) ltac:(reflexivity) ltac:(reflexivity)
                ltac:(reflexivity) ltac:(reflexivity) ltac:(reflexivity)
                ltac:(reflexivity) ltac:(reflexivity) parms g) as Hmodel.
  destruct (LoadSimParms parms g) as [r g1]. cbn [fst snd] in Hout, Hmodel.
  destruct (required_fields_ok parms) eqn:Hok; subst r.
  - rewrite Hmodel.
    destruct (readParameters parms (Driver.model Model g)) as [[b|what] m1]
      eqn:Hread.
    + split; [|reflexivity]. intros _. now exists doc, parms, b, m1.
    + split; [discriminate|].
      intros (? & ? & ? & ? & Hf & Hr & _ & Hread').
      injection Hf as <-. rewrite Eroot in Hr. injection Hr as <-.
      rewrite Hread in Hread'. discriminate.
  - split; [discriminate|].
    intros (? & ? & ? & ? & Hf & Hr & Hok' & _).
    injection Hf as <-. rewrite Eroot in Hr. injection Hr as <-. congruence.
Qed.

(** X11.  When the command line is rejected the program stops with status
    -1 and the complaint as the last line on [cerr]; it has not read any
    file (the result is the same whatever the files hold), has not asked
    the model object anything, and leaves no state file, no memory image
    and no simulator. *)
Theorem main_rejects_command_line (argv : list string)
    (other_files : Driver.Files (Image := Image)) :
  fst (parseCommandLine argv
         (Driver.initial_globals Model new_LIFSingleThreadedModel)) = false ->
  Driver.exit_status (main argv) = -1
  /\ Driver.world (main argv) = None
  /\ Driver.state_out (main argv) = None
  /\ Driver.memory_out (main argv) = None
  /\ last (Driver.cerr (Driver.globals (main argv))) ""
     = "! ERROR: failed during command line parse"
  /\ Driver.model Model (Driver.globals (main argv))
     = new_LIFSingleThreadedModel
  /\ Driver.main Model new_LIFSingleThreadedModel readParameters new_Network
       DEFAULT_dt scan_int scan_FLOAT scan_long scan_string cl_addParam_ok
       cl_parseCommandLine other_files argv
     = main argv.
Proof.
  unfold Driver.main, Driver.parseCommandLine.
  destruct cl_addParam_ok; cbn [negb].
  - destruct (cl_parseCommandLine argv) as [cl|]; [discriminate|].
    intros _. cbn. repeat split.
  - intros _. cbn. repeat split.
Qed.

(** X12.  Whatever the command line, the exit status is 0 or -1; it is 0
    exactly when a simulation was run, which is also exactly when the
    state file was written; and a memory image is written only after a
    simulation, and only when the command line named a file for it. *)
Theorem main_exit_status (argv : list string) :
  (Driver.exit_status (main argv) = 0 \/ Driver.exit_status (main argv) = -1)
  /\ (Driver.exit_status (main argv) = 0 <-> Driver.world (main argv) <> None)
  /\ (Driver.exit_status (main argv) = 0
      <-> Driver.state_out (main argv) <> None)
  /\ (Driver.memory_out (main argv) <> None ->
      Driver.exit_status (main argv) = 0
      /\ Driver.fWriteMemImage Model (Driver.globals (main argv)) = true).
Proof.
  unfold Driver.main.
  destruct (parseCommandLine argv
              (Driver.initial_globals Model new_LIFSingleThreadedModel))
    as [ok g1].
  destruct ok; cbn [negb].
  2:{ cbn. intuition congruence. }
  destruct (load_simulation_parameters (Driver.stateInputFileName g1) g1)
    as [ok g2].
  destruct ok; cbn [negb].
  2:{ cbn. intuition congruence. }
  cbn [Driver.exit_status Driver.world Driver.state_out Driver.memory_out
       Driver.globals].
  destruct (Driver.fWriteMemImage Model g2); intuition congruence.
Qed.

(** The globals after an accepted command line: the four file names as
    given, each flag set exactly when its file name is not empty, the rest
    as at program start. *)
Lemma parseCommandLine_accepts (argv : list string) (cl : string -> string) :
  cl_addParam_ok = true ->
  cl_parseCommandLine argv = Some cl ->
  parseCommandLine argv
    (Driver.initial_globals Model new_LIFSingleThreadedModel)
  = (true,
     {| Driver.stateOutputFileName := cl "stateoutfile";
        Driver.stateInputFileName := cl "stateinfile";
        Driver.memOutputFileName := cl "memoutfile";
        Driver.memInputFileName := cl "meminfile";
        Driver.fReadMemImage := negb (String.eqb (cl "meminfile") "");
        Driver.fWriteMemImage := negb (String.eqb (cl "memoutfile") "");
        Driver.poolsize := [0; 0; 0];
        Driver.model := new_LIFSingleThreadedModel;
        Driver.Tsim := 0%Q;
        Driver.numSims := 0;
        Driver.maxFiringRate := 0;
        Driver.maxSynapsesPerNeuron := 0;
        Driver.seed := 0;
        Driver.cerr := [] |}).
Proof.
  intros Hadd Hcl. unfold Driver.parseCommandLine. rewrite Hadd, Hcl.
  unfold Driver.bind, Driver.modify, Driver.ret.
  destruct (cl "meminfile"), (cl "memoutfile"); reflexivity.
Qed.

(** X13.  What the program does when the command line is accepted, the
    parameter file gives its nine fields and the model object reads its
    parameters.  It builds the [SimulationInfo] from the values of the
    file and [DEFAULT_dt], builds the network from the model object as
    [readParameters] left it, restores the memory image named on the
    command line when one is named (and only then), runs [simulate] once
    from tick 0, writes the state under the name given in the parameter
    file, not the one of the command line, writes a memory image when the
    command line names one (and only then), and returns 0. *)
Theorem main_runs_the_loaded_configuration (argv : list string)
    (cl : string -> string) (doc : list TiXmlElement) (parms : TiXmlElement)
    (b : bool) (m' : Model) (x y z : Z) (tsim : BGFLOAT)
    (sims rate cap : Z) (out : string) (sd : Z) :
  cl_addParam_ok = true ->
  cl_parseCommandLine argv = Some cl ->
  Driver.xml_file files (cl "stateinfile") = Some doc ->
  FirstChildElement "SimParams" doc = Some parms ->
  field_value scan_int "PoolSize" "x" parms = Some x ->
  field_value scan_int "PoolSize" "y" parms = Some y ->
  field_value scan_int "PoolSize" "z" parms = Some z ->
  field_value scan_FLOAT "SimParams" "Tsim" parms = Some tsim ->
  field_value scan_int "SimParams" "numSims" parms = Some sims ->
  field_value scan_int "SimParams" "maxFiringRate" parms = Some rate ->
  field_value scan_int "SimParams" "maxSynapsesPerNeuron" parms = Some cap ->
  field_value scan_string "OutputParams" "stateOutputFileName" parms
  = Some out ->
  field_value scan_long "Seed" "value" parms = Some sd ->
  readParameters parms new_LIFSingleThreadedModel = (Returned b, m') ->
  let si := makeSimulationInfo x y tsim (inject_Z sims) rate cap DEFAULT_dt sd in
  let w0 := mkWorld 0 (new_Network m' si) in
  let w1 := if String.eqb (cl "meminfile") "" then w0
            else readMemory (Driver.mem_file files (cl "meminfile")) w0 in
  let w2 := simulate si w1 in
  Driver.exit_status (main argv) = 0
  /\ Driver.world (main argv) = Some w2
  /\ Driver.state_out (main argv) = Some (out, saveState si w2)
  /\ Driver.memory_out (main argv)
     = if String.eqb (cl "memoutfile") "" then None
       else Some (cl "memoutfile", saveMemory si w2).
Proof.
  intros Hadd Hcl Hfile Hroot Hx Hy Hz Ht Hs Hr Hc Ho Hsd Hread.
  cbv zeta. unfold Driver.main.
  rewrite (parseCommandLine_accepts argv cl Hadd Hcl). cbn [negb].
  unfold Driver.load_simulation_parameters.
  cbn [Driver.stateInputFileName]. rewrite Hfile, Hroot. unfold Driver.bind.
  rewrite (LoadSimParms_returns parms _ x y z tsim sims rate cap out sd)
    by assumption.
  cbn [Driver.model]. rewrite Hread.
  destruct (String.eqb (cl "meminfile") ""), (String.eqb (cl "memoutfile") "");
    cbn; repeat split.
Qed.

End DriverMore.

Lemma LoadSimParms_loads_values_witness :
  Driver.poolsize
    (snd (Driver.LoadSimParms unit sample_scan_int sample_scan_FLOAT
            sample_scan_int sample_scan_string tiny_xml
            (Driver.initial_globals unit tt)))
  = [2; 2; 1].
Proof.
  destruct (LoadSimParms_loads_values unit sample_scan_int sample_scan_FLOAT
              sample_scan_int sample_scan_string tiny_xml
              (Driver.initial_globals unit tt)
              2 2 1 (3 # 10000)%Q 1 200 200 "tiny-out.xml" 1)
    as (_ & _ & Hpool & _).
  1-9: reflexivity.
  apply Hpool. reflexivity.
Defined.

Lemma LoadSimParms_first_child_only_witness :
  Driver.LoadSimParms unit sample_scan_int sample_scan_FLOAT sample_scan_int
    sample_scan_string
    (XmlElement "SimParams" []
       (children tiny_xml ++ [XmlElement "PoolSize" [("x", "1")] []]))
    (Driver.initial_globals unit tt)
  = Driver.LoadSimParms unit sample_scan_int sample_scan_FLOAT sample_scan_int
      sample_scan_string (XmlElement "SimParams" [] (children tiny_xml))
      (Driver.initial_globals unit tt).
Proof.
  apply (LoadSimParms_first_child_only unit sample_scan_int sample_scan_FLOAT
           sample_scan_int sample_scan_string "SimParams" []
           (children tiny_xml) [XmlElement "PoolSize" [("x", "1")] []]);
    vm_compute; discriminate.
Defined.

Lemma main_rejects_command_line_witness :
  Driver.exit_status
    (Driver.main (Net := Trace) unit tt (fun _ m => (Returned true, m))
       (fun _ _ => ([] : Trace)) (1 # 10000)%Q sample_scan_int
       sample_scan_FLOAT sample_scan_int sample_scan_string true
       (fun _ => None) (sample_files tiny_xml) ["growth"])
  = -1.
Proof.
  apply (main_rejects_command_line (Net := Trace) unit tt
           (fun _ m => (Returned true, m)) (fun _ _ => ([] : Trace))
           (1 # 10000)%Q sample_scan_int sample_scan_FLOAT sample_scan_int
           sample_scan_string true (fun _ => None) (sample_files tiny_xml)
           ["growth"] (sample_files broken_xml)).
  reflexivity.
Defined.

Lemma main_runs_the_loaded_configuration_witness :
  Driver.exit_status (sample_main tiny_xml) = 0
  /\ option_map fst (Driver.state_out (sample_main tiny_xml))
     = Some "tiny-out.xml"
  /\ Driver.memory_out (sample_main tiny_xml) = None.
Proof.
  destruct (main_runs_the_loaded_configuration (Net := Trace) unit tt
              (fun _ m => (Returned true, m)) (fun _ _ => ([] : Trace))
              (1 # 10000)%Q sample_scan_int sample_scan_FLOAT sample_scan_int
              sample_scan_string true (fun _ => Some sample_cl)
              (sample_files tiny_xml) ["growth"; "-t"; "tiny.xml"]
              sample_cl [tiny_xml] tiny_xml true tt
              2 2 1 (3 # 10000)%Q 1 200 200 "tiny-out.xml" 1)
    as (Hexit & _ & Hstate & Hmem).
  1-14: reflexivity.
  split; [exact Hexit|]. split.
  - unfold sample_main. rewrite Hstate. reflexivity.
  - exact Hmem.
Defined.

(** ** Complaints and exceptions go together *)

Lemma reports_nil_iff (scan_int : string -> option Z)
    (scan_FLOAT : string -> option BGFLOAT) (scan_long : string -> option Z)
    (scan_string : string -> option string) (parms : TiXmlElement) :
  Driver.reports scan_int scan_FLOAT scan_long scan_string parms = []
  <-> Driver.required_fields_ok scan_int scan_FLOAT scan_long scan_string
        parms = true.
Proof.
  unfold Driver.reports, Driver.element_report, Driver.required_fields_ok,
    Driver.attribute_report.
  destruct (FirstChildElement "PoolSize" (children parms)) as [e1|] eqn:E1;
  destruct (FirstChildElement "SimParams" (children parms)) as [e2|] eqn:E2;
  destruct (FirstChildElement "OutputParams" (children parms)) as [e3|] eqn:E3;
  destruct (FirstChildElement "Seed" (children parms)) as [e4|] eqn:E4;
  rewrite <- ?(succeeded_query _ _ _ _ _ E1), <- ?(succeeded_query _ _ _ _ _ E2),
    <- ?(succeeded_query _ _ _ _ _ E3), <- ?(succeeded_query _ _ _ _ _ E4);
  rewrite ?(field_missing _ _ _ _ E1), ?(field_missing _ _ _ _ E2),
    ?(field_missing _ _ _ _ E3), ?(field_missing _ _ _ _ E4);
  repeat match goal with
         | |- context [succeeded ?q] => destruct (succeeded q)
         end;
  cbn; split; intros Hx; try reflexivity; try discriminate;
  try (apply app_eq_nil in Hx; destruct Hx; discriminate).
Qed.

(** X14.  [LoadSimParms] throws exactly when it has written to [cerr]:
    whatever the parameter file, it returns normally if and only if it
    leaves [cerr] as it found it.  There is no silent failure and no
    complaint without an exception. *)
Theorem LoadSimParms_throws_iff_complained (Model : Type)
    (scan_int : string -> option Z) (scan_FLOAT : string -> option BGFLOAT)
    (scan_long : string -> option Z) (scan_string : string -> option string)
    (parms : TiXmlElement) (g : Driver.Globals Model) :
  let r := Driver.LoadSimParms Model scan_int scan_FLOAT scan_long
             scan_string parms g in
  (fst r = Returned tt <-> Driver.cerr (snd r) = Driver.cerr g)
  /\ (fst r = Thrown Driver.KII_message
      <-> Driver.cerr (snd r) <> Driver.cerr g)
  /\ (fst r = Returned tt \/ fst r = Thrown Driver.KII_message).
Proof.
  cbv zeta.
  rewrite LoadSimParms_outcome, LoadSimParms_cerr.
  pose proof (reports_nil_iff scan_int scan_FLOAT scan_long scan_string parms)
    as Hiff.
  assert (Happ : forall l : list string,
            Driver.cerr g ++ l = Driver.cerr g <-> l = []).
  { intros l. split.
    - intros Hl. apply (app_inv_head (Driver.cerr g)). now rewrite app_nil_r.
    - intros ->. apply app_nil_r. }
  destruct (Driver.required_fields_ok scan_int scan_FLOAT scan_long
              scan_string parms).
  - assert (Hnil : Driver.reports scan_int scan_FLOAT scan_long scan_string
                     parms = []) by now apply Hiff.
    rewrite Hnil, app_nil_r. repeat split; auto; try discriminate.
    intros Hc. now elim Hc.
  - assert (Hne : Driver.reports scan_int scan_FLOAT scan_long scan_string
                    parms <> []).
    { intros Hnil. apply Hiff in Hnil. discriminate. }
    repeat split; auto; try discriminate.
    + intros Hc. apply Happ in Hc. contradiction.
    + intros _ Hc. apply Happ in Hc. contradiction.
Qed.
